(** * linuxShell: the line editor, the history ring and the command resolver

    A shallow embedding of [src/linuxShell.c].  C [int]s are modelled as [Z]
    (every value that occurs stays far below 2^31, so no wrap-around is
    written out), the C remainder [%] as [Z.rem] (truncating, as in C), a
    NUL-terminated string as a [string] holding the bytes before the NUL, a
    [char] array as a [list ascii], and an array of [char *] as a
    [list (option string)] where [None] is the NULL pointer. *)

From Stdlib Require Import ZArith Ascii String List Lia.
From stdpp Require Import base list strings.

Local Open Scope string_scope.
Local Open Scope Z_scope.

(** ** Constants (the three [#define]s) *)

Definition MAX_LENGTH : Z := 1024.
Definition MAX_ARGS : Z := 64.
Definition BUFFER_SIZE : Z := 5.

(** ** The global history buffer and its tracking variables *)

Record history_state : Type := mkHistory {
  history : list string;   (* char history[BUFFER_SIZE][MAX_LENGTH] *)
  command_count : Z;       (* number of commands stored so far *)
  next_command : Z;        (* next insertion index *)
  buffer_index : Z         (* browsing index, -1 means not browsing *)
}.

(** Globals are zero-initialised: five empty strings. *)
Definition initial_history : history_state :=
  mkHistory (replicate (Z.to_nat BUFFER_SIZE) "") 0 0 (-1).

(** [history[i]] read as a C string. *)
Definition slot (g : history_state) (i : Z) : string :=
  default "" (history g !! Z.to_nat i).

Definition set_buffer_index (g : history_state) (b : Z) : history_state :=
  mkHistory (history g) (command_count g) (next_command g) b.

(** [strlen] on a C string. *)
Definition strlen (s : string) : Z := Z.of_nat (String.length s).

(** The index compared against in [add_to_buffer] and read by [!!]. *)
Definition last_index (g : history_state) : Z :=
  Z.rem (next_command g - 1 + BUFFER_SIZE) BUFFER_SIZE.

(** [add_to_buffer], lines 255-275. *)
Definition add_to_buffer (cmd : string) (g : history_state) : history_state :=
  if strlen cmd =? 0 then g
  else if (command_count g >? 0) && String.eqb (slot g (last_index g)) cmd then g
  else
    mkHistory
      (<[Z.to_nat (next_command g) := cmd]> (history g))
      (if command_count g <? BUFFER_SIZE then command_count g + 1
       else command_count g)
      (Z.rem (next_command g + 1) BUFFER_SIZE)
      (-1).

(** ** Browsing: the index arithmetic shared by the warm-up loops
       (lines 94-136) and the arrow-key handlers (lines 170-235) *)

(** [start], the oldest stored command. *)
Definition start_index (g : history_state) : Z :=
  if command_count g <? BUFFER_SIZE then 0 else next_command g.

(** [most_recent], the newest stored command. *)
Definition most_recent (g : history_state) : Z :=
  Z.rem (start_index g + command_count g - 1) BUFFER_SIZE.

(** The cursor an up-arrow moves to; [None] is the [continue] taken when the
    cursor already sits on the oldest command.  Only evaluated under
    [command_count > 0]. *)
Definition up_target (g : history_state) : option Z :=
  if buffer_index g =? -1 then Some (most_recent g)
  else if buffer_index g =? start_index g then None
  else Some (Z.rem (buffer_index g - 1 + BUFFER_SIZE) BUFFER_SIZE).

(** The cursor a down-arrow moves to; [None] is the reset to "not
    browsing".  Only evaluated under [buffer_index != -1]. *)
Definition down_target (g : history_state) : option Z :=
  if buffer_index g =? most_recent g then None
  else Some (Z.rem (buffer_index g + 1) BUFFER_SIZE).

(** One simulated up-arrow keypress: the body of the loop at lines 94-116,
    which is also the cursor effect of the ESC [ A handler. *)
Definition move_back (g : history_state) : history_state :=
  if command_count g >? 0 then
    match up_target g with
    | Some b => set_buffer_index g b
    | None => g
    end
  else g.

(** One simulated down-arrow keypress: the body of the loop at lines
    117-136, which is also the cursor effect of the ESC [ B handler. *)
Definition move_forward (g : history_state) : history_state :=
  if negb (buffer_index g =? -1) then
    match down_target g with
    | Some b => set_buffer_index g b
    | None => set_buffer_index g (-1)
    end
  else g.

(** The two [for (i = 0; i < 5; i++)] loops that open [get_input]. *)
Definition warm_up (g : history_state) : history_state :=
  Nat.iter 5 move_forward (Nat.iter 5 move_back g).

(** ** Terminal and process effects

    What the shell does to the outside world is recorded as a trace.  The
    text of the prompt depends on the working directory and the outcome of
    [fork]/[execvp]/[chdir] on the operating system; neither is modelled, so
    a call of [print_prompt], [chdir], [handle_pipe]'s launch or
    [run_instruction] is one event carrying the arguments of the call. *)

Inductive event : Type :=
  | Prompt                                   (* print_prompt() *)
  | Stdout (s : string)                      (* putchar / printf *)
  | Stderr (s : string)                      (* fprintf(stderr, ...) *)
  | Chdir (path : string)                    (* chdir(args[1]) *)
  | Pipeline (left right : list string)      (* the two execvp of handle_pipe *)
  | Run (argv : list string) (background : Z)
        (input_file output_file : option string). (* run_instruction *)

(** ** Character arrays *)

Definition NUL : ascii := "000"%char.
Definition ESC : ascii := "027"%char.
Definition LF : ascii := "010"%char.
Definition CR : ascii := "013"%char.
Definition BS : ascii := "008"%char.
Definition DEL : ascii := "127"%char.

(** The C string held by a [char] array: the bytes before the first NUL.
    The last cell of the line buffer is never written with anything but
    NUL, so in the shell a NUL is always found before the array ends. *)
Fixpoint c_string (a : list ascii) : string :=
  match a with
  | [] => ""
  | c :: r => if Ascii.eqb c NUL then "" else String c (c_string r)
  end.

(** [strcpy(dst, src)]: the bytes of [src] and a NUL over the front of
    [dst].  Every string copied into the 1024-byte line buffer is a history
    entry, itself read out of such a buffer, so it fits. *)
Definition strcpy (dst : list ascii) (src : string) : list ascii :=
  let bytes := (list_ascii_of_string src ++ [NUL])%list in
  (bytes ++ drop (length bytes) dst)%list.

Definition erase_char : string := String BS (String " "%char (String BS "")).
Definition clear_line : string := String ESC ("[2K" ++ String CR "").
Definition newline : string := String LF "".

(** ** The line editor, [get_input] (lines 87-247) *)

Record editor : Type := mkEditor {
  buf : list ascii;        (* char buf[MAX_LENGTH], main's [input] *)
  count : Z;               (* character count *)
  hist : history_state;    (* the globals; only buffer_index is written *)
  out : list event         (* what was written to the terminal, in order *)
}.

Definition emit (e : editor) (evs : list event) : editor :=
  mkEditor (buf e) (count e) (hist e) (out e ++ evs).

(** Enter: [putchar('\n'); buf[count] = '\0'; break]. *)
Definition on_enter (e : editor) : editor :=
  mkEditor (<[Z.to_nat (count e) := NUL]> (buf e)) (count e) (hist e)
           (out e ++ [Stdout newline]).

(** Backspace or delete. *)
Definition on_backspace (e : editor) : editor :=
  if count e >? 0 then
    mkEditor (buf e) (count e - 1) (hist e) (out e ++ [Stdout erase_char])
  else e.

(** Redraw with the history entry under the cursor [b]. *)
Definition load_entry (e : editor) (b : Z) : editor :=
  let g := set_buffer_index (hist e) b in
  let buf' := strcpy (buf e) (slot g b) in
  mkEditor buf' (strlen (c_string buf')) g
           (out e ++ [Stdout clear_line; Prompt; Stdout (c_string buf')]).

(** Up arrow, ESC [ A. *)
Definition on_up (e : editor) : editor :=
  if command_count (hist e) >? 0 then
    match up_target (hist e) with
    | None => e
    | Some b => load_entry e b
    end
  else e.

(** Down arrow, ESC [ B. *)
Definition on_down (e : editor) : editor :=
  if negb (buffer_index (hist e) =? -1) then
    match down_target (hist e) with
    | None =>
        mkEditor (<[0%nat := NUL]> (buf e)) 0 (set_buffer_index (hist e) (-1))
                 (out e ++ [Stdout clear_line; Prompt])
    | Some b => load_entry e b
    end
  else e.

(** The two bytes read after an ESC. *)
Definition on_escape (seq0 seq1 : ascii) (e : editor) : editor :=
  if Ascii.eqb seq0 "["%char && Ascii.eqb seq1 "A"%char then on_up e
  else if Ascii.eqb seq0 "["%char && Ascii.eqb seq1 "B"%char then on_down e
  else e.

(** Any other byte. *)
Definition on_char (c : ascii) (e : editor) : editor :=
  if count e <? MAX_LENGTH - 1 then
    mkEditor (<[Z.to_nat (count e) := c]> (buf e)) (count e + 1) (hist e)
             (out e ++ [Stdout (String c "")])
  else e.

(** The [while (1)] loop.  Standard input is the list of bytes still to
    come; a [read] on the empty list returns 0 (end of stream), and goes on
    doing so.  A [read] that fails with -1 is not modelled.  The result is
    the editor at the [break] and the bytes left unread. *)
Fixpoint read_loop (stdin : list ascii) (e : editor) : editor * list ascii :=
  match stdin with
  | [] => (e, [])
  | c :: s1 =>
      if Ascii.eqb c LF || Ascii.eqb c CR then (on_enter e, s1)
      else if Ascii.eqb c DEL || Ascii.eqb c BS then read_loop s1 (on_backspace e)
      else if Ascii.eqb c ESC then
        match s1 with
        | [] => read_loop s1 e
        | seq0 :: s2 =>
            match s2 with
            | [] => read_loop s2 e
            | seq1 :: s3 => read_loop s3 (on_escape seq0 seq1 e)
            end
        end
      else read_loop s1 (on_char c e)
  end.

(** [get_input(buf)]: clear the buffer, warm up the cursor, read.  The
    value returned is [count] of the resulting editor. *)
Definition get_input (stdin : list ascii) (g : history_state)
  : editor * list ascii :=
  read_loop stdin
    (mkEditor (replicate (Z.to_nat MAX_LENGTH) NUL) 0 (warm_up g) []).

(** ** The tokenizer, [divide_args] (lines 283-299) *)

(** The successive results of [strtok(input, " ")], [strtok(NULL, " ")],
    ...: the maximal runs of bytes other than a space.  [cur] is the token
    being read, empty between tokens. *)
Fixpoint strtok_from (s : string) (cur : string) : list string :=
  match s with
  | EmptyString => if String.eqb cur "" then [] else [cur]
  | String c r =>
      if Ascii.eqb c " "%char then
        if String.eqb cur "" then strtok_from r ""
        else cur :: strtok_from r ""
      else strtok_from r (cur ++ String c "")
  end.

Definition strtok (input : string) : list string := strtok_from input "".

(** The [while (segment != NULL && i < MAX_ARGS - 1)] loop over the
    segments still to come. *)
Fixpoint divide_loop (segments : list string) (i : Z)
    (args : list (option string)) (background : Z)
  : Z * list (option string) * Z :=
  match segments with
  | [] => (i, args, background)
  | segment :: rest =>
      if i <? MAX_ARGS - 1 then
        if String.eqb segment "&" then divide_loop rest i args 1
        else divide_loop rest (i + 1) (<[Z.to_nat i := Some segment]> args)
                         background
      else (i, args, background)
  end.

(** [divide_args(input, args, &background)]: the count returned, the
    array and the flag afterwards. *)
Definition divide_args (input : string) (args : list (option string))
    (background : Z) : Z * list (option string) * Z :=
  let '(i, args', background') := divide_loop (strtok input) 0 args background in
  (i, <[Z.to_nat i := None]> args', background').

(** ** Argument vectors *)

(** [args[j]]. *)
Definition arg (args : list (option string)) (j : Z) : option string :=
  default None (args !! Z.to_nat j).

(** [strcmp(args[j], s) == 0]; only evaluated where [args[j]] is not NULL. *)
Definition arg_is (args : list (option string)) (j : Z) (s : string) : bool :=
  match arg args j with
  | Some t => String.eqb t s
  | None => false
  end.

(** What [execvp(a[0], a)] receives: the entries of [a] before the first
    NULL. *)
Fixpoint until_null (a : list (option string)) : list string :=
  match a with
  | Some s :: r => s :: until_null r
  | _ => []
  end.

(** The vector [&args[j]]. *)
Definition argv (args : list (option string)) (j : Z) : list string :=
  until_null (drop (Z.to_nat j) args).

(** ** Builtins, pipes and redirection *)

Inductive builtin : Type :=
  | BuiltinExit                        (* exit(0) *)
  | BuiltinHandled (evs : list event)  (* return 1 *)
  | NotBuiltin.                        (* return 0 *)

(** [handle_cd_and_exit], lines 307-326.  A failed [chdir] also prints
    through [perror]; that depends on the file system and is left out. *)
Definition handle_cd_and_exit (args : list (option string)) : builtin :=
  if arg_is args 0 "exit" then BuiltinExit
  else if arg_is args 0 "cd" then
    match arg args 1 with
    | None => BuiltinHandled [Stderr ("cd: expected argument" ++ newline)]
    | Some path => BuiltinHandled [Chdir path]
    end
  else NotBuiltin.

(** The scan [for (j = 0; j < argc; j++)] of [handle_pipe], from [j] with
    [n] indices left: the index of the first [|]. *)
Fixpoint find_pipe (args : list (option string)) (j : Z) (n : nat) : option Z :=
  match n with
  | O => None
  | S n' => if arg_is args j "|" then Some j else find_pipe args (j + 1) n'
  end.

(** [handle_pipe], lines 334-405: [None] is [return 0]; otherwise the array
    with the [|] overwritten by NULL and the two commands handed to
    [execvp]. *)
Definition handle_pipe (args : list (option string)) (argc : Z)
  : option (list (option string) * event) :=
  match find_pipe args 0 (Z.to_nat argc) with
  | None => None
  | Some pipe_index =>
      let args' := <[Z.to_nat pipe_index := None]> args in
      Some (args', Pipeline (argv args' 0) (argv args' (pipe_index + 1)))
  end.

(** [handle_input_or_output], lines 413-426, from index [j] with [n]
    indices left: the array, [*input_file] and [*output_file] afterwards. *)
Fixpoint redirect_scan (args : list (option string)) (j : Z) (n : nat)
    (input_file output_file : option string)
  : list (option string) * option string * option string :=
  match n with
  | O => (args, input_file, output_file)
  | S n' =>
      if arg_is args j ">" then
        (<[Z.to_nat j := None]> args, input_file, arg args (j + 1))
      else if arg_is args j "<" then
        (<[Z.to_nat j := None]> args, arg args (j + 1), output_file)
      else redirect_scan args (j + 1) n' input_file output_file
  end.

Definition handle_input_or_output (args : list (option string)) (argc : Z)
    (input_file output_file : option string)
  : list (option string) * option string * option string :=
  redirect_scan args 0 (Z.to_nat argc) input_file output_file.

(** [run_instruction], lines 434-487: the call, with the vector [execvp]
    is given. *)
Definition run_instruction (args : list (option string)) (background : Z)
    (input_file output_file : option string) : event :=
  Run (argv args 0) background input_file output_file.

(** ** The shell loop, [main] (lines 495-566) *)

Record shell : Type := mkShell {
  globals : history_state;       (* history, command_count, ... *)
  input : list ascii;            (* char input[MAX_LENGTH] *)
  args : list (option string);   (* char *args[MAX_ARGS] *)
  background : Z;
  argc : Z;
  stdin : list ascii;            (* the bytes standard input still holds *)
  trace : list event             (* everything done so far *)
}.

(** How one pass through the body of [while (1)] ends. *)
Inductive control : Type :=
  | Next                (* [continue], or the end of the body *)
  | Break               (* [break]: main returns 0 *)
  | Exit (status : Z).  (* [exit(status)] *)

(** Lines 537-563: tokenize [input] and run it.  [strtok] also overwrites
    the delimiters inside [input]; the array is not read again before the
    next [memset], so that write is left out. *)
Definition run_line (s : shell) : control * shell :=
  let '(n, args1, bg) := divide_args (c_string (input s)) (args s) 0 in
  let s1 := mkShell (globals s) (input s) args1 bg n (stdin s) (trace s) in
  match arg args1 0 with
  | None => (Next, s1)
  | Some _ =>
      match handle_cd_and_exit args1 with
      | BuiltinExit => (Exit 0, s1)
      | BuiltinHandled evs =>
          (Next, mkShell (globals s) (input s) args1 bg n (stdin s)
                         (trace s ++ evs))
      | NotBuiltin =>
          match handle_pipe args1 n with
          | Some (args2, ev) =>
              (Next, mkShell (globals s) (input s) args2 bg n (stdin s)
                             (trace s ++ [ev]))
          | None =>
              let '(args2, input_file, output_file) :=
                handle_input_or_output args1 n None None in
              (Next, mkShell (globals s) (input s) args2 bg n (stdin s)
                             (trace s ++
                                [run_instruction args2 bg input_file output_file]))
          end
      end
  end.

Definition no_history_message : string := "No commands in history." ++ newline.

(** Lines 515-563: what [main] does with the line [get_input] left in
    [input]. *)
Definition after_input (s : shell) : control * shell :=
  let line := c_string (input s) in
  if strlen line =? 0 then (Next, s)
  else if String.eqb line "!!" then
    if command_count (globals s) =? 0 then
      (Next, mkShell (globals s) (input s) (args s) (background s) (argc s)
                     (stdin s) (trace s ++ [Stdout no_history_message]))
    else
      let last_cmd := slot (globals s) (last_index (globals s)) in
      run_line (mkShell (globals s) (strcpy (input s) last_cmd) (args s)
                        (background s) (argc s) (stdin s)
                        (trace s ++ [Stdout (last_cmd ++ newline)]))
  else
    run_line (mkShell (add_to_buffer line (globals s)) (input s) (args s)
                      (background s) (argc s) (stdin s) (trace s)).

(** One pass through the body of [while (1)], lines 506-563. *)
Definition main_iteration (s : shell) : control * shell :=
  let '(e, rest) := get_input (stdin s) (globals s) in
  let s1 := mkShell (hist e) (buf e) (args s) (background s) (argc s) rest
                    (trace s ++ Prompt :: out e) in
  if count e <? 0 then (Break, s1) else after_input s1.

(** How a run of [main] stands after at most [fuel] passes. *)
Inductive outcome : Type :=
  | Returned (s : shell)              (* left the loop: return 0 *)
  | Exited (status : Z) (s : shell)   (* exit(status) *)
  | Running (s : shell).              (* still inside while (1) *)

Fixpoint main_loop (fuel : nat) (s : shell) : outcome :=
  match fuel with
  | O => Running s
  | S fuel' =>
      match main_iteration s with
      | (Next, s') => main_loop fuel' s'
      | (Break, s') => Returned s'
      | (Exit status, s') => Exited status s'
      end
  end.

(** [main] entered with standard input holding [bytes]; the locals [input]
    and [args] start with whatever the stack holds. *)
Definition boot (input0 : list ascii) (args0 : list (option string))
    (bytes : list ascii) : shell :=
  mkShell initial_history input0 args0 0 0 bytes [].

(** ** Derived notions used by the statements *)

(** The stored commands from oldest to newest, in the order the arrow keys
    walk them: [history[(start + k) % BUFFER_SIZE]] for [k] below
    [command_count]. *)
Definition entries (g : history_state) : list string :=
  map (fun k : nat => slot g (Z.rem (start_index g + Z.of_nat k) BUFFER_SIZE))
      (seq 0 (Z.to_nat (command_count g))).

(** The history after submitting [cmds] in order to an empty one. *)
Definition appends (cmds : list string) : history_state :=
  fold_left (fun g cmd => add_to_buffer cmd g) cmds initial_history.

(** Counters within the bounds of the array. *)
Definition counters_ok (g : history_state) : Prop :=
  0 <= command_count g <= BUFFER_SIZE /\
  0 <= next_command g < BUFFER_SIZE.

(** The shape every history built by [add_to_buffer] has: five slots,
    counters in bounds, and the write index equal to the count until the
    ring is full. *)
Definition ring_ok (g : history_state) : Prop :=
  length (history g) = Z.to_nat BUFFER_SIZE /\
  counters_ok g /\
  (command_count g < BUFFER_SIZE -> next_command g = command_count g).

(** A browse cursor that is either "not browsing" or the index of a slot
    of a history that holds at least one command. *)
Definition cursor_ok (g : history_state) : Prop :=
  buffer_index g = -1 \/
  (0 <= buffer_index g < BUFFER_SIZE /\ 0 < command_count g).

(** Events that start a process. *)
Definition is_spawn (ev : event) : bool :=
  match ev with
  | Pipeline _ _ | Run _ _ _ _ => true
  | _ => false
  end.

Definition of_string (s : string) : list ascii := list_ascii_of_string s.

(** Two histories with the same slots, count and write index (the browse
    cursor may differ). *)
Definition same_ring (g g' : history_state) : Prop :=
  history g' = history g /\ command_count g' = command_count g /\
  next_command g' = next_command g.

(** A stretch of the trace in which no process is started. *)
Definition quiet (evs : list event) : Prop :=
  Forall (fun ev => is_spawn ev = false) evs.

(** Counters in bounds and the cursor at rest or on a slot: what holds of
    the globals at every point of a run. *)
Definition well_placed (g : history_state) : Prop :=
  counters_ok g /\ cursor_ok g.

(** A string that is not empty and holds no space. *)
Definition spaceless (t : string) : Prop :=
  t <> "" /\ " "%char ∉ list_ascii_of_string t.

(** The arguments [divide_args] keeps out of a list of segments: those
    other than [&], as many as fit before the terminating NULL. *)
Definition kept_arguments (segments : list string) : list string :=
  take (Z.to_nat (MAX_ARGS - 1)) (filter (fun t => t <> "&") segments).

(** A line editor that has just cleared its buffer, as [get_input] has
    before the first [read]. *)
Definition fresh_editor (g : history_state) : editor :=
  mkEditor (replicate (Z.to_nat MAX_LENGTH) NUL) 0 g [].

(** ** The prompt, [print_prompt] (lines 55-79) *)

(** The [for] loop at lines 64-72 from [&path[i] = rest] on: every [/]
    moves [last_dir] behind it, except a [/] that ends the path, which
    becomes [last_dir] itself and ends the loop. *)
Fixpoint last_dir_scan (rest last_dir : string) : string :=
  match rest with
  | EmptyString => last_dir
  | String c r =>
      if Ascii.eqb c "/"%char then
        if String.eqb r "" then rest else last_dir_scan r r
      else last_dir_scan r last_dir
  end.

(** [last_dir] for the path [getcwd] returned. *)
Definition last_dir (path : string) : string :=
  if String.eqb path "/" then "/" else last_dir_scan path path.

(** What [print_prompt] writes when [getcwd] succeeds.  (When it fails,
    [perror] writes a message that depends on [errno].) *)
Definition prompt_text (path : string) : string :=
  "osc:" ++ last_dir path ++ "> ".

(** ** Further notions for the statements *)

(** [n] spaces. *)
Fixpoint spaces (n : nat) : string :=
  match n with
  | O => ""
  | S n' => String " "%char (spaces n')
  end.

(** A string without a slash. *)
Definition slash_free (s : string) : Prop :=
  "/"%char ∉ list_ascii_of_string s.

(** The commands [add_to_buffer] accepts out of a sequence of submissions,
    told without the ring: empty ones and immediate repeats are dropped. *)
Definition accept (acc : list string) (cmd : string) : list string :=
  if decide (cmd = "" \/ last acc = Some cmd) then acc else (acc ++ [cmd])%list.

Definition accepted (cmds : list string) : list string :=
  fold_left accept cmds [].

(** What a key does to a line of text: delete and backspace drop the last
    byte, any other byte is added while the line is shorter than
    [MAX_LENGTH - 1]. *)
Definition type_key (line : list ascii) (c : ascii) : list ascii :=
  if Ascii.eqb c DEL || Ascii.eqb c BS then removelast line
  else if Z.of_nat (length line) <? MAX_LENGTH - 1 then (line ++ [c])%list
  else line.

(** A byte that neither ends the line nor starts an escape sequence. *)
Definition plain_key (c : ascii) : Prop := c <> LF /\ c <> CR /\ c <> ESC.

(** The text under edit: the first [count] bytes of the buffer. *)
Definition pending (e : editor) : list ascii :=
  take (Z.to_nat (count e)) (buf e).

(** An editor whose line is the history entry under the cursor. *)
Definition showing (e : editor) : Prop :=
  c_string (buf e) = slot (hist e) (buffer_index (hist e)) /\
  count e = strlen (slot (hist e) (buffer_index (hist e))).

(** A string that fits a [char [MAX_LENGTH]] array with its NUL. *)
Definition fits (s : string) : Prop :=
  strlen s < MAX_LENGTH /\ NUL ∉ list_ascii_of_string s.

Definition slots_fit (g : history_state) : Prop := Forall fits (history g).

(** A line buffer of [MAX_LENGTH] cells whose last cell is NUL and whose
    count is an index into it. *)
Definition buffer_ok (e : editor) : Prop :=
  length (buf e) = Z.to_nat MAX_LENGTH /\
  0 <= count e < MAX_LENGTH /\
  buf e !! Z.to_nat (MAX_LENGTH - 1) = Some NUL.

(** What holds of the shell between two rounds of its loop. *)
Definition shell_ok (s : shell) : Prop :=
  ring_ok (globals s) /\ cursor_ok (globals s) /\ slots_fit (globals s) /\
  length (args s) = Z.to_nat MAX_ARGS.

(** The bytes of [K] up-arrow keys, and of [K] down-arrow keys. *)
Definition up_keys (K : nat) : list ascii :=
  concat (replicate K [ESC; "["%char; "A"%char]).

Definition down_keys (K : nat) : list ascii :=
  concat (replicate K [ESC; "["%char; "B"%char]).

(** The state of a run of [main], whatever way it stands. *)
Definition state_of (o : outcome) : shell :=
  match o with
  | Returned s | Exited _ s | Running s => s
  end.

(** * Proofs *)

(** ** Case analysis on small counters *)

Lemma Z_cases_0_5 (x : Z) :
  0 <= x <= 5 -> x = 0 \/ x = 1 \/ x = 2 \/ x = 3 \/ x = 4 \/ x = 5.
Proof. lia. Qed.

Lemma Z_cases_m1_4 (x : Z) :
  -1 <= x < 5 -> x = -1 \/ x = 0 \/ x = 1 \/ x = 2 \/ x = 3 \/ x = 4.
Proof. lia. Qed.

Lemma list_length_5 {A} (l : list A) :
  length l = 5%nat -> exists a b c d e, l = [a; b; c; d; e].
Proof.
  destruct l as [|a [|b [|c [|d [|e [|f l]]]]]]; try discriminate.
  intros _. by exists a, b, c, d, e.
Qed.

(** Split every disjunction in the context, substituting as we go. *)
Ltac split_cases :=
  repeat match goal with
         | H : _ \/ _ |- _ => destruct H as [H | H]
         end; subst.

Lemma warm_up_resets (g : history_state) :
  counters_ok g -> cursor_ok g -> warm_up g = set_buffer_index g (-1).
Proof.
  destruct g as [h c n b]. unfold counters_ok, cursor_ok, BUFFER_SIZE; simpl.
  intros [Hc Hn] Hb.
  assert (Hb' : -1 <= b < 5) by lia.
  apply Z_cases_0_5 in Hc. apply Z_cases_m1_4 in Hb'.
  assert (Hn' : -1 <= n < 5) by lia. apply Z_cases_m1_4 in Hn'.
  split_cases; try lia; reflexivity.
Qed.

Lemma back_then_forward (g : history_state) (K : nat) :
  counters_ok g -> 0 < command_count g -> buffer_index g = -1 ->
  Z.of_nat K <= command_count g ->
  Nat.iter K move_forward (Nat.iter K move_back g) = g.
Proof.
  destruct g as [h c n b]. unfold counters_ok, BUFFER_SIZE; simpl.
  intros [Hc Hn] Hpos -> HK.
  apply Z_cases_0_5 in Hc.
  assert (Hn' : -1 <= n < 5) by lia. apply Z_cases_m1_4 in Hn'.
  destruct K as [|[|[|[|[|[|K]]]]]]; split_cases; try lia; reflexivity.
Qed.

(** ** [add_to_buffer] *)

Lemma strlen_0 (s : string) : (strlen s = 0) <-> (s = "").
Proof. unfold strlen. destruct s; simpl; split; intros; first [discriminate | lia | done]. Qed.

Lemma add_to_buffer_empty (g : history_state) : add_to_buffer "" g = g.
Proof. reflexivity. Qed.

Lemma add_to_buffer_same (g : history_state) (cmd : string) :
  0 < command_count g -> slot g (last_index g) = cmd -> add_to_buffer cmd g = g.
Proof.
  intros Hc Heq. unfold add_to_buffer.
  destruct (strlen cmd =? 0); [done|].
  assert ((command_count g >? 0) = true) as -> by lia.
  rewrite Heq, String.eqb_refl. done.
Qed.

Lemma add_to_buffer_fresh (g : history_state) (cmd : string) :
  cmd <> "" -> (0 < command_count g -> slot g (last_index g) <> cmd) ->
  add_to_buffer cmd g =
  mkHistory (<[Z.to_nat (next_command g) := cmd]> (history g))
            (if command_count g <? BUFFER_SIZE then command_count g + 1
             else command_count g)
            (Z.rem (next_command g + 1) BUFFER_SIZE) (-1).
Proof.
  intros Hne Hnew. unfold add_to_buffer.
  destruct (Z.eqb_spec (strlen cmd) 0) as [E|_]; [by apply strlen_0 in E|].
  destruct (Z.gtb_spec (command_count g) 0) as [Hc|_]; [|done].
  destruct (String.eqb_spec (slot g (last_index g)) cmd) as [E|_]; [|done].
  by apply Hnew in E; [|lia].
Qed.

Lemma ring_ok_initial : ring_ok initial_history.
Proof. unfold ring_ok, counters_ok, BUFFER_SIZE; simpl. lia. Qed.

Lemma ring_ok_shape (g : history_state) :
  ring_ok g ->
  exists a b c d e bi,
    (exists k, 0 <= k < 5 /\ g = mkHistory [a; b; c; d; e] k k bi) \/
    (exists n, 0 <= n < 5 /\ g = mkHistory [a; b; c; d; e] 5 n bi).
Proof.
  destruct g as [h c n bi]. unfold ring_ok, counters_ok, BUFFER_SIZE; simpl.
  intros (Hlen & [Hc Hn] & Hfull).
  destruct (list_length_5 h Hlen) as (s0 & s1 & s2 & s3 & s4 & ->).
  exists s0, s1, s2, s3, s4, bi.
  destruct (Z.eq_dec c 5) as [->|Hne].
  - right. by exists n.
  - left. exists c. rewrite Hfull by lia. split; [lia|done].
Qed.

(** Take a [ring_ok] history apart into its ten possible counter
    settings. *)
Ltac ring_cases H :=
  let k := fresh "k" in
  let Hk := fresh "Hk" in
  apply ring_ok_shape in H;
  destruct H as (? & ? & ? & ? & ? & ? & [(k & Hk & ->) | (k & Hk & ->)]);
  (assert (k = 0 \/ k = 1 \/ k = 2 \/ k = 3 \/ k = 4) as Hk' by lia;
   clear Hk; split_cases).

Lemma ring_ok_add (cmd : string) (g : history_state) :
  ring_ok g -> ring_ok (add_to_buffer cmd g).
Proof.
  intros H. unfold add_to_buffer.
  destruct (strlen cmd =? 0); [done|].
  destruct (_ && _); [done|].
  ring_cases H; vm_compute; intuition discriminate.
Qed.

Lemma ring_ok_appends (cmds : list string) : ring_ok (appends cmds).
Proof.
  unfold appends. generalize ring_ok_initial. generalize initial_history.
  induction cmds as [|c cmds IH]; intros g Hg; simpl; [done|].
  apply IH. by apply ring_ok_add.
Qed.

Lemma newest_is_last (g : history_state) :
  ring_ok g -> 0 < command_count g ->
  last (entries g) = Some (slot g (last_index g)).
Proof. intros H Hc. ring_cases H; simpl in Hc; try lia; reflexivity. Qed.

Lemma oldest_is_head (g : history_state) :
  ring_ok g -> command_count g = BUFFER_SIZE ->
  head (entries g) = Some (slot g (next_command g)).
Proof.
  intros H Hc. ring_cases H; unfold BUFFER_SIZE in Hc; simpl in Hc; try lia;
    reflexivity.
Qed.

Lemma entries_add_fresh (g : history_state) (cmd : string) :
  ring_ok g -> cmd <> "" -> (0 < command_count g -> slot g (last_index g) <> cmd) ->
  entries (add_to_buffer cmd g) =
  ((if command_count g <? BUFFER_SIZE then entries g else tail (entries g))
     ++ [cmd])%list.
Proof.
  intros H Hne Hnew. rewrite add_to_buffer_fresh by done. clear Hne Hnew.
  ring_cases H; reflexivity.
Qed.

Lemma count_add_fresh (g : history_state) (cmd : string) :
  cmd <> "" -> (0 < command_count g -> slot g (last_index g) <> cmd) ->
  command_count (add_to_buffer cmd g) =
  (if command_count g <? BUFFER_SIZE then command_count g + 1
   else command_count g).
Proof. intros. by rewrite add_to_buffer_fresh. Qed.

Lemma length_entries (g : history_state) :
  length (entries g) = Z.to_nat (command_count g).
Proof. unfold entries. by rewrite length_map, length_seq. Qed.

Lemma appends_snoc (cmds : list string) (cmd : string) :
  appends (cmds ++ [cmd]) = add_to_buffer cmd (appends cmds).
Proof. unfold appends. by rewrite fold_left_app. Qed.

Lemma tail_drop {A} (l : list A) (n : nat) : tail (drop n l) = drop (S n) l.
Proof.
  replace (S n) with (n + 1)%nat by lia.
  rewrite <- drop_drop. by destruct (drop n l).
Qed.

(** Distinct non-empty commands are all accepted, so the ring holds the
    last five of them, oldest first. *)
Lemma entries_appends (cmds : list string) :
  NoDup cmds -> Forall (fun c => c <> "") cmds ->
  entries (appends cmds) = drop (length cmds - 5) cmds.
Proof.
  induction cmds as [|c cmds IH] using rev_ind; intros Hnd Hne; [done|].
  apply NoDup_app in Hnd as (Hnd & Hc & _).
  apply Forall_app in Hne as [Hne Hc0]. apply Forall_inv in Hc0.
  specialize (IH Hnd Hne).
  pose proof (ring_ok_appends cmds) as Hok.
  pose proof (length_entries (appends cmds)) as Hlen.
  rewrite IH, length_drop in Hlen.
  assert (Hcount : 0 <= command_count (appends cmds) <= 5)
    by (unfold ring_ok, counters_ok, BUFFER_SIZE in Hok; lia).
  rewrite appends_snoc.
  rewrite entries_add_fresh; [|exact Hok|exact Hc0|].
  - rewrite IH, length_app; simpl.
    destruct (Z.ltb_spec (command_count (appends cmds)) BUFFER_SIZE) as [Hlt|Hge];
      unfold BUFFER_SIZE in *.
    + replace (length cmds + 1 - 5)%nat with 0%nat by lia.
      replace (length cmds - 5)%nat with 0%nat by lia. done.
    + rewrite drop_app_le by lia. rewrite tail_drop.
      by replace (length cmds + 1 - 5)%nat with (S (length cmds - 5)) by lia.
  - intros Hpos Heq. apply (newest_is_last _ Hok) in Hpos.
    rewrite IH, Heq in Hpos. apply last_Some_elem_of in Hpos.
    apply (subseteq_drop _ _ _) in Hpos. by apply (Hc c); [|left].
Qed.

(** ** The cursor stays on a stored command

    Every write to [buffer_index] keeps it at -1 or on a slot of a
    non-empty history, so the states the warm-up is proved for are all the
    states the shell can be in. *)

Lemma counters_ok_add (cmd : string) (g : history_state) :
  counters_ok g -> counters_ok (add_to_buffer cmd g).
Proof.
  destruct g as [h c n b]. unfold counters_ok, add_to_buffer, BUFFER_SIZE; simpl.
  intros [Hc Hn]. destruct (strlen cmd =? 0); [done|].
  destruct (_ && _); [done|]. simpl.
  assert (Hn' : -1 <= n < 5) by lia. apply Z_cases_m1_4 in Hn'.
  split; [case_match; lia|]. split_cases; try lia; vm_compute; intuition discriminate.
Qed.

Lemma cursor_ok_add (cmd : string) (g : history_state) :
  cursor_ok g -> cursor_ok (add_to_buffer cmd g).
Proof.
  intros H. unfold add_to_buffer. destruct (strlen cmd =? 0); [done|].
  destruct (_ && _); [done|]. by left.
Qed.

Lemma cursor_ok_move_back (g : history_state) :
  counters_ok g -> cursor_ok g -> cursor_ok (move_back g).
Proof.
  destruct g as [h c n b]. unfold counters_ok, cursor_ok, BUFFER_SIZE; simpl.
  intros [Hc Hn] Hb.
  assert (Hb' : -1 <= b < 5) by lia.
  apply Z_cases_0_5 in Hc. apply Z_cases_m1_4 in Hb'.
  assert (Hn' : -1 <= n < 5) by lia. apply Z_cases_m1_4 in Hn'.
  split_cases; try lia; vm_compute; intuition discriminate.
Qed.

Lemma cursor_ok_move_forward (g : history_state) :
  counters_ok g -> cursor_ok g -> cursor_ok (move_forward g).
Proof.
  destruct g as [h c n b]. unfold counters_ok, cursor_ok, BUFFER_SIZE; simpl.
  intros [Hc Hn] Hb.
  assert (Hb' : -1 <= b < 5) by lia.
  apply Z_cases_0_5 in Hc. apply Z_cases_m1_4 in Hb'.
  assert (Hn' : -1 <= n < 5) by lia. apply Z_cases_m1_4 in Hn'.
  split_cases; try lia; vm_compute; intuition discriminate.
Qed.

(** ** The arrow-key handlers move the cursor as the warm-up loops do *)

Lemma hist_on_up (e : editor) : hist (on_up e) = move_back (hist e).
Proof.
  unfold on_up, move_back. destruct (command_count (hist e) >? 0); [|done].
  by destruct (up_target (hist e)).
Qed.

Lemma hist_on_down (e : editor) : hist (on_down e) = move_forward (hist e).
Proof.
  unfold on_down, move_forward. destruct (negb _); [|done].
  by destruct (down_target (hist e)).
Qed.

Lemma hist_iter_on_up (K : nat) (e : editor) :
  hist (Nat.iter K on_up e) = Nat.iter K move_back (hist e).
Proof. induction K as [|K IH]; simpl; [done|]. by rewrite hist_on_up, IH. Qed.

Lemma hist_iter_on_down (K : nat) (e : editor) :
  hist (Nat.iter K on_down e) = Nat.iter K move_forward (hist e).
Proof. induction K as [|K IH]; simpl; [done|]. by rewrite hist_on_down, IH. Qed.

(** ** Claims about the history ring *)

(** C4: however many commands are appended, [command_count] stays within
    [BUFFER_SIZE]; on a full ring an accepted command is written over
    the slot at [next_command], which held the oldest entry, and the count
    stays at [BUFFER_SIZE]; after [BUFFER_SIZE + 1] distinct non-empty
    commands the ring holds the last [BUFFER_SIZE] of them in submission
    order and the first one is gone. *)
Theorem history_ring_bounded :
  (forall cmds, 0 <= command_count (appends cmds) <= BUFFER_SIZE) /\
  (forall cmds cmd,
      command_count (appends cmds) = BUFFER_SIZE ->
      cmd <> "" -> last (entries (appends cmds)) <> Some cmd ->
      let g := appends cmds in
      let g' := add_to_buffer cmd g in
      history g' = <[Z.to_nat (next_command g) := cmd]> (history g) /\
      head (entries g) = Some (slot g (next_command g)) /\
      command_count g' = BUFFER_SIZE /\
      entries g' = (tail (entries g) ++ [cmd])%list) /\
  (forall cmds,
      length cmds = S (Z.to_nat BUFFER_SIZE) -> NoDup cmds ->
      Forall (fun c => c <> "") cmds ->
      entries (appends cmds) = drop 1 cmds /\
      forall c, head cmds = Some c -> c ∉ entries (appends cmds)).
Proof.
  split; [|split].
  - intros cmds. destruct (ring_ok_appends cmds) as (_ & [H _] & _). exact H.
  - intros cmds cmd Hfull Hne Hlast g g'.
    pose proof (ring_ok_appends cmds) as Hok. fold g in Hok, Hfull, Hlast.
    assert (Hnew : 0 < command_count g -> slot g (last_index g) <> cmd).
    { intros Hpos Heq. apply Hlast. rewrite <- Heq. by apply newest_is_last. }
    subst g'. rewrite entries_add_fresh, count_add_fresh by done.
    rewrite add_to_buffer_fresh by done. simpl.
    rewrite Hfull. split; [done|]. split; [by apply oldest_is_head|done].
  - intros cmds Hlen Hnd Hne.
    rewrite entries_appends, Hlen by done. simpl. split; [done|].
    intros c Hc Hin. destruct cmds as [|c' cmds]; [done|].
    simpl in Hc, Hin. injection Hc as ->. rewrite drop_0 in Hin.
    by apply NoDup_cons in Hnd as [? _].
Qed.

Lemma history_ring_bounded_witness :
  entries (appends ["a"; "b"; "c"; "d"; "e"; "f"]) = ["b"; "c"; "d"; "e"; "f"] /\
  entries (add_to_buffer "f" (appends ["a"; "b"; "c"; "d"; "e"]))
  = ["b"; "c"; "d"; "e"; "f"].
Proof.
  split.
  - apply (proj2 (proj2 history_ring_bounded) ["a"; "b"; "c"; "d"; "e"; "f"]).
    + reflexivity.
    + apply (bool_decide_unpack _). vm_compute. exact I.
    + apply (bool_decide_unpack _). vm_compute. exact I.
  - apply (proj1 (proj2 history_ring_bounded) ["a"; "b"; "c"; "d"; "e"] "f").
    + reflexivity.
    + discriminate.
    + vm_compute. discriminate.
Defined.

(** C5: appending an empty command, or one equal to the newest entry,
    changes nothing (slots, count, write index and browse cursor alike);
    hence appending the same command twice in a row gives the same history
    as appending it once. *)
Theorem add_to_buffer_noop :
  (forall g cmd,
      ring_ok g -> cmd = "" \/ last (entries g) = Some cmd ->
      add_to_buffer cmd g = g) /\
  (forall g cmd,
      ring_ok g ->
      add_to_buffer cmd (add_to_buffer cmd g) = add_to_buffer cmd g).
Proof.
  assert (Hnoop : forall g cmd,
             ring_ok g -> cmd = "" \/ last (entries g) = Some cmd ->
             add_to_buffer cmd g = g).
  { intros g cmd Hok [->|Hlast]; [done|].
    assert (Hpos : 0 < command_count g).
    { pose proof (length_entries g) as Hlen.
      destruct (entries g); [done|]. simpl in Hlen. lia. }
    apply add_to_buffer_same; [done|].
    rewrite (newest_is_last g Hok Hpos) in Hlast. congruence. }
  split; [exact Hnoop|].
  intros g cmd Hok.
  destruct (decide (cmd = "")) as [->|Hne]; [done|].
  destruct (decide (last (entries g) = Some cmd)) as [Hlast|Hlast].
  - by rewrite !(Hnoop g cmd Hok (or_intror Hlast)).
  - apply Hnoop; [by apply ring_ok_add|]. right.
    rewrite entries_add_fresh; [by rewrite last_snoc|done|done|].
    intros Hpos Heq. apply Hlast. rewrite <- Heq. by apply newest_is_last.
Qed.

Lemma add_to_buffer_noop_witness :
  add_to_buffer "ls" (appends ["pwd"; "ls"]) = appends ["pwd"; "ls"] /\
  add_to_buffer "ls" (add_to_buffer "ls" (appends ["pwd"]))
  = add_to_buffer "ls" (appends ["pwd"]).
Proof.
  split.
  - apply (proj1 add_to_buffer_noop).
    + apply ring_ok_appends.
    + right. reflexivity.
  - apply (proj2 add_to_buffer_noop). apply ring_ok_appends.
Defined.

(** C6: whatever the history holds and wherever the browse cursor stands
    (not browsing, or on a slot of a non-empty history), the warm-up of
    [get_input] -- five back-moves, then five forward-moves -- leaves the
    cursor at -1 and everything else alone; doing it again changes nothing,
    and [get_input] behaves as if the cursor had been set to -1 directly. *)
Theorem warm_up_normalises (g : history_state) :
  counters_ok g -> cursor_ok g ->
  warm_up g = set_buffer_index g (-1) /\
  buffer_index (warm_up g) = -1 /\
  warm_up (warm_up g) = warm_up g /\
  forall bytes,
    get_input bytes g =
    read_loop bytes
      (mkEditor (replicate (Z.to_nat MAX_LENGTH) NUL) 0
                (set_buffer_index g (-1)) []).
Proof.
  intros Hc Hb. pose proof (warm_up_resets g Hc Hb) as H.
  split; [done|]. split; [by rewrite H|]. split.
  - rewrite H. rewrite warm_up_resets; [done|done|by left].
  - intros bytes. unfold get_input. by rewrite H.
Qed.

Lemma warm_up_normalises_witness :
  buffer_index
    (warm_up (set_buffer_index (appends ["a"; "b"; "c"; "d"; "e"; "f"]) 3)) = -1.
Proof.
  apply (warm_up_normalises
           (set_buffer_index (appends ["a"; "b"; "c"; "d"; "e"; "f"]) 3)).
  - vm_compute. intuition discriminate.
  - right. vm_compute. intuition discriminate.
Defined.

(** C7: on a history holding s > 0 commands, for every K <= s, K up-arrows
    followed by K down-arrows take the cursor from "not browsing" back to
    "not browsing". *)
Theorem back_forward_round_trip (e : editor) (K : nat) :
  counters_ok (hist e) -> 0 < command_count (hist e) ->
  buffer_index (hist e) = -1 -> Z.of_nat K <= command_count (hist e) ->
  buffer_index (hist (Nat.iter K on_down (Nat.iter K on_up e))) = -1 /\
  Nat.iter K move_forward (Nat.iter K move_back (hist e)) = hist e.
Proof.
  intros Hc Hpos Hb HK.
  rewrite hist_iter_on_down, hist_iter_on_up.
  by rewrite back_then_forward.
Qed.

Lemma back_forward_round_trip_witness :
  buffer_index
    (hist (Nat.iter 3 on_down
             (Nat.iter 3 on_up
                (mkEditor (replicate 1024 NUL) 0 (appends ["a"; "b"; "c"]) []))))
  = -1.
Proof.
  apply (back_forward_round_trip
           (mkEditor (replicate 1024 NUL) 0 (appends ["a"; "b"; "c"]) []) 3).
  - vm_compute. intuition discriminate.
  - reflexivity.
  - reflexivity.
  - vm_compute. discriminate.
Defined.

(** ** The read loop *)

(** A property of the editor kept by each key handler is kept by the whole
    loop.  The loop consumes one to three bytes per round, so the induction
    is on a bound for the length of the input. *)
Section ReadLoopInvariant.
Variable P : editor -> Prop.
Hypothesis P_enter : forall e, P e -> P (on_enter e).
Hypothesis P_backspace : forall e, P e -> P (on_backspace e).
Hypothesis P_escape : forall seq0 seq1 e, P e -> P (on_escape seq0 seq1 e).
Hypothesis P_char : forall c e, P e -> P (on_char c e).

Lemma read_loop_bounded (n : nat) :
  forall bytes e, (length bytes <= n)%nat -> P e -> P (fst (read_loop bytes e)).
Proof.
  induction n as [|n IH]; intros bytes e Hlen He.
  - destruct bytes; [done|simpl in Hlen; lia].
  - destruct bytes as [|c s1]; [done|]. simpl in Hlen. simpl.
    destruct (_ || _); [by apply P_enter|].
    destruct (_ || _); [apply IH; [lia|by apply P_backspace]|].
    destruct (Ascii.eqb c ESC); [|apply IH; [lia|by apply P_char]].
    destruct s1 as [|seq0 [|seq1 s3]]; [done|done|].
    simpl in Hlen. apply IH; [lia|by apply P_escape].
Qed.

Lemma read_loop_preserves (bytes : list ascii) (e : editor) :
  P e -> P (fst (read_loop bytes e)).
Proof. by apply (read_loop_bounded (length bytes)). Qed.
End ReadLoopInvariant.

Lemma strlen_nonneg (s : string) : 0 <= strlen s.
Proof. unfold strlen. lia. Qed.

Lemma read_loop_count_nonneg (bytes : list ascii) (e : editor) :
  0 <= count e -> 0 <= count (fst (read_loop bytes e)).
Proof.
  apply (read_loop_preserves (fun e => 0 <= count e)); clear.
  - done.
  - intros e He. unfold on_backspace.
    destruct (Z.gtb_spec (count e) 0); simpl; lia.
  - intros seq0 seq1 e He. unfold on_escape, on_up, on_down, load_entry.
    repeat case_match; simpl; auto using strlen_nonneg; lia.
  - intros c e He. unfold on_char. case_match; simpl; lia.
Qed.

Lemma get_input_count_nonneg (bytes : list ascii) (g : history_state) :
  0 <= count (fst (get_input bytes g)).
Proof. by apply read_loop_count_nonneg. Qed.

(** The read loop never touches the stored commands or the two counters. *)
Lemma read_loop_same_ring (g : history_state) (bytes : list ascii) (e : editor) :
  same_ring g (hist e) -> same_ring g (hist (fst (read_loop bytes e))).
Proof.
  apply (read_loop_preserves (fun e => same_ring g (hist e))); clear; try done.
  - intros e He. unfold on_backspace. by case_match.
  - intros seq0 seq1 e He. unfold on_escape, on_up, on_down, load_entry.
    repeat case_match; simpl; done.
  - intros c e He. unfold on_char. by case_match.
Qed.

Lemma warm_up_same_ring (g : history_state) : same_ring g (warm_up g).
Proof.
  assert (Hb : forall g0, same_ring g g0 -> same_ring g (move_back g0)).
  { intros g0 H. unfold move_back. repeat case_match; done. }
  assert (Hf : forall g0, same_ring g g0 -> same_ring g (move_forward g0)).
  { intros g0 H. unfold move_forward. repeat case_match; done. }
  unfold warm_up; simpl. repeat (apply Hf). repeat (apply Hb). done.
Qed.

Lemma get_input_same_ring (bytes : list ascii) (g : history_state) :
  same_ring g (hist (fst (get_input bytes g))).
Proof. apply read_loop_same_ring, warm_up_same_ring. Qed.

(** With nothing stored and the cursor at rest the arrows do nothing. *)
Lemma read_loop_empty_history (g : history_state) (bytes : list ascii) (e : editor) :
  command_count g = 0 -> buffer_index g = -1 ->
  hist e = g -> hist (fst (read_loop bytes e)) = g.
Proof.
  intros Hc Hb.
  apply (read_loop_preserves (fun e => hist e = g)); try done.
  - intros e0 He. unfold on_backspace. by case_match.
  - intros seq0 seq1 e0 He. unfold on_escape, on_up, on_down.
    rewrite He, Hc, Hb. simpl. by repeat case_match.
  - intros c e0 He. unfold on_char. by case_match.
Qed.

(** The editor writes to the terminal only. *)
Lemma read_loop_quiet (bytes : list ascii) (e : editor) :
  quiet (out e) -> quiet (out (fst (read_loop bytes e))).
Proof.
  apply (read_loop_preserves (fun e => quiet (out e))); clear; unfold quiet.
  - intros e He. simpl. apply Forall_app. by repeat constructor.
  - intros e He. unfold on_backspace. case_match; [|done].
    simpl. apply Forall_app. by repeat constructor.
  - intros seq0 seq1 e He. unfold on_escape, on_up, on_down, load_entry.
    repeat case_match; simpl; try done; apply Forall_app; by repeat constructor.
  - intros c e He. unfold on_char. case_match; [|done].
    simpl. apply Forall_app. by repeat constructor.
Qed.

Lemma c_string_replicate_NUL (n : nat) : c_string (replicate n NUL) = "".
Proof. by destruct n. Qed.

(** ** Claims about the line editor and the shell loop *)

Lemma main_iteration_never_breaks (s : shell) : fst (main_iteration s) <> Break.
Proof.
  unfold main_iteration.
  pose proof (get_input_count_nonneg (stdin s) (globals s)) as Hc.
  destruct (get_input (stdin s) (globals s)) as [e rest]; simpl in Hc.
  assert ((count e <? 0) = false) as -> by lia.
  unfold after_input, run_line; simpl.
  repeat case_match; simpl; discriminate.
Qed.

Lemma main_iteration_at_eof (s : shell) :
  stdin s = [] ->
  exists s', main_iteration s = (Next, s') /\ stdin s' = [].
Proof.
  intros Heof. unfold main_iteration, get_input. rewrite Heof.
  cbn [read_loop count buf hist out].
  change (0 <? 0) with false. cbv iota.
  unfold after_input. cbn [input]. rewrite c_string_replicate_NUL.
  change (strlen "" =? 0) with true. cbv iota. eauto.
Qed.

(** C1 (the code departs from it): [get_input] leaves its loop at the end
    of the stream but returns the character count, which is never
    negative, so the test [get_input(input) < 0] in [main] never
    succeeds: no run of [main] leaves [while (1)] through [break], and on
    an exhausted standard input the loop is still running after any number
    of rounds. *)
Theorem main_loops_forever_at_eof :
  (forall bytes g, 0 <= count (fst (get_input bytes g))) /\
  (forall fuel s s', main_loop fuel s <> Returned s') /\
  (forall fuel input0 args0,
      exists s', main_loop fuel (boot input0 args0 []) = Running s').
Proof.
  split; [exact get_input_count_nonneg|]. split.
  - induction fuel as [|fuel IH]; intros s s'; simpl; [done|].
    pose proof (main_iteration_never_breaks s) as Hnb.
    destruct (main_iteration s) as [[| |status] s1]; simpl in Hnb; [apply IH|done|done].
  - intros fuel input0 args0.
    assert (H : forall s, stdin s = [] -> exists s', main_loop fuel s = Running s').
    { induction fuel as [|fuel IH]; intros s Hs; simpl; [eauto|].
      destruct (main_iteration_at_eof s Hs) as (s1 & -> & Hs1). by apply IH. }
    by apply H.
Qed.

(** C3 (as the code has it): after an ESC the editor reads the next two
    bytes whatever the first one is.  [ESC [ A] and [ESC [ B] run the arrow
    handlers; any other pair is consumed and dropped, leaving the pending
    line, the history cursor and the terminal untouched, and reading goes
    on with the byte after the pair.  If the stream ends at either of the
    two reads, nothing changes and the read cycle ends. *)
Theorem escape_reads_two_bytes :
  (forall seq0 seq1 rest e,
      ~ (seq0 = "["%char /\ (seq1 = "A"%char \/ seq1 = "B"%char)) ->
      read_loop (ESC :: seq0 :: seq1 :: rest) e = read_loop rest e) /\
  (forall rest e,
      read_loop (ESC :: "["%char :: "A"%char :: rest) e = read_loop rest (on_up e)) /\
  (forall rest e,
      read_loop (ESC :: "["%char :: "B"%char :: rest) e = read_loop rest (on_down e)) /\
  (forall e, read_loop [ESC] e = (e, [])) /\
  (forall seq0 e, read_loop [ESC; seq0] e = (e, [])).
Proof.
  repeat split; try reflexivity.
  intros seq0 seq1 rest e Hno.
  change (read_loop (ESC :: seq0 :: seq1 :: rest) e)
    with (read_loop rest (on_escape seq0 seq1 e)).
  f_equal. unfold on_escape.
  destruct (Ascii.eqb_spec seq0 "["%char) as [->|]; [|done].
  destruct (Ascii.eqb_spec seq1 "A"%char) as [->|]; [tauto|].
  destruct (Ascii.eqb_spec seq1 "B"%char) as [->|]; [tauto|done].
Qed.

Lemma escape_reads_two_bytes_witness :
  read_loop (ESC :: "O"%char :: "P"%char :: of_string "ls") (fresh_editor initial_history)
  = read_loop (of_string "ls") (fresh_editor initial_history).
Proof.
  apply (proj1 escape_reads_two_bytes "O"%char "P"%char).
  intros [H _]. discriminate H.
Defined.

(** C3 as stated fails: after [ESC x] the next byte is not processed as
    ordinary input.  Typing ESC, [x], [l], [s], Enter yields the line [s],
    not the line [ls] that typing [l], [s], Enter yields. *)
Lemma escape_swallows_following_byte :
  c_string (buf (fst (get_input (ESC :: "x"%char :: of_string "ls" ++ [LF])%list
                                initial_history))) = "s" /\
  c_string (buf (fst (get_input (of_string "ls" ++ [LF])%list initial_history)))
  = "ls" /\
  ~ (forall seq0 rest e,
        seq0 <> "["%char ->
        read_loop (ESC :: seq0 :: rest) e = read_loop rest e).
Proof.
  split; [by vm_compute|]. split; [by vm_compute|].
  intros H.
  specialize (H "x"%char (of_string "ls" ++ [LF])%list
                (fresh_editor initial_history) ltac:(discriminate)).
  apply (f_equal (fun r => c_string (buf (fst r)))) in H.
  vm_compute in H. discriminate H.
Qed.

(** ** The recall token *)

Lemma run_line_globals (s : shell) : globals (snd (run_line s)) = globals s.
Proof. unfold run_line. repeat case_match; done. Qed.

(** C9: when the line read is exactly [!!] and no command is stored, one
    round of the shell loop prints "No commands in history.", starts no
    process, leaves the history as it was and goes on to the next
    prompt. *)
Theorem recall_on_empty_history (s : shell) :
  command_count (globals s) = 0 ->
  c_string (buf (fst (get_input (stdin s) (globals s)))) = "!!" ->
  let e := fst (get_input (stdin s) (globals s)) in
  let s' := snd (main_iteration s) in
  fst (main_iteration s) = Next /\
  same_ring (globals s) (globals s') /\
  (buffer_index (globals s) = -1 -> globals s' = globals s) /\
  trace s' = (trace s ++ Prompt :: out e ++ [Stdout no_history_message])%list /\
  quiet (Prompt :: out e ++ [Stdout no_history_message])%list.
Proof.
  intros Hc Hline e s'.
  pose proof (get_input_same_ring (stdin s) (globals s)) as Hsame.
  assert (Hg : buffer_index (globals s) = -1 -> hist e = globals s).
  { intros Hb. apply read_loop_empty_history; [done|done|].
    cbn [hist]. destruct (globals s); simpl in *. by subst. }
  assert (Hq : quiet (out e)) by (apply read_loop_quiet; constructor).
  pose proof (get_input_count_nonneg (stdin s) (globals s)) as Hn.
  subst s'. unfold main_iteration. fold e in Hline, Hn, Hsame.
  destruct (get_input (stdin s) (globals s)) as [e0 rest]. simpl in e. subst e.
  assert ((count e0 <? 0) = false) as -> by lia.
  unfold after_input. cbn [input globals]. rewrite Hline.
  destruct Hsame as (Hh & Hcount & Hnext). rewrite Hcount, Hc.
  change (strlen "!!" =? 0) with false. cbn.
  repeat split; try done.
  - by rewrite <- app_assoc.
  - unfold quiet in *. constructor; [done|]. apply Forall_app. by repeat constructor.
Qed.

Lemma recall_on_empty_history_witness :
  fst (main_iteration (boot [] (replicate 64 None) (of_string "!!" ++ [LF])%list))
  = Next.
Proof.
  apply (recall_on_empty_history
           (boot [] (replicate 64 None) (of_string "!!" ++ [LF])%list)).
  - reflexivity.
  - vm_compute. reflexivity.
Defined.

(** C10: a round of the shell loop whose line is exactly [!!] leaves the
    slots, the count and the write index of the history as they were,
    whatever the history holds: the recalled command is run, not stored
    again. *)
Theorem recall_keeps_history (s : shell) :
  c_string (buf (fst (get_input (stdin s) (globals s)))) = "!!" ->
  same_ring (globals s) (globals (snd (main_iteration s))).
Proof.
  intros Hline.
  pose proof (get_input_same_ring (stdin s) (globals s)) as Hsame.
  unfold main_iteration.
  destruct (get_input (stdin s) (globals s)) as [e rest]. simpl in Hline, Hsame.
  destruct (count e <? 0); [done|].
  unfold after_input. cbn [input globals]. rewrite Hline.
  change (strlen "!!" =? 0) with false. cbn [String.eqb Ascii.eqb Bool.eqb].
  cbv iota.
  destruct (command_count (hist e) =? 0); [done|].
  by rewrite run_line_globals.
Qed.

Lemma recall_keeps_history_witness :
  same_ring (appends ["ls"; "pwd"])
    (globals (snd (main_iteration
       (mkShell (appends ["ls"; "pwd"]) [] (replicate 64 None) 0 0
                (of_string "!!" ++ [LF])%list [])))).
Proof.
  apply (recall_keeps_history
           (mkShell (appends ["ls"; "pwd"]) [] (replicate 64 None) 0 0
                    (of_string "!!" ++ [LF])%list [])).
  vm_compute. reflexivity.
Defined.

(** ** The cursor invariant along the shell loop *)

Lemma read_loop_well_placed (bytes : list ascii) (e : editor) :
  well_placed (hist e) -> well_placed (hist (fst (read_loop bytes e))).
Proof.
  apply (read_loop_preserves (fun e => well_placed (hist e))); clear; try done.
  - intros e He. unfold on_backspace. by case_match.
  - intros seq0 seq1 e [Hc Hb]. unfold on_escape.
    repeat case_match; try done.
    + rewrite hist_on_up. split; [|by apply cursor_ok_move_back].
      unfold move_back. repeat case_match; done.
    + rewrite hist_on_down. split; [|by apply cursor_ok_move_forward].
      unfold move_forward. repeat case_match; done.
  - intros c e He. unfold on_char. by case_match.
Qed.

Lemma warm_up_well_placed (g : history_state) :
  well_placed g -> well_placed (warm_up g).
Proof.
  intros [Hc Hb]. rewrite warm_up_resets by done. split; [done|by left].
Qed.

Lemma main_iteration_well_placed (s : shell) :
  well_placed (globals s) -> well_placed (globals (snd (main_iteration s))).
Proof.
  intros Hg. unfold main_iteration.
  pose proof (read_loop_well_placed (stdin s) (fresh_editor (warm_up (globals s)))
                (warm_up_well_placed _ Hg)) as He.
  change (read_loop (stdin s) (fresh_editor (warm_up (globals s))))
    with (get_input (stdin s) (globals s)) in He.
  destruct (get_input (stdin s) (globals s)) as [e rest]. simpl in He.
  destruct (count e <? 0); [done|].
  unfold after_input. cbn [input globals].
  repeat case_match; try done; rewrite run_line_globals; cbn [globals]; try done.
  destruct He as [Hc Hb]. split; [by apply counters_ok_add|by apply cursor_ok_add].
Qed.

(** ** The tokenizer *)

Lemma until_null_stored (kept : list string) (rest : list (option string)) :
  until_null ((Some <$> kept) ++ None :: rest) = kept.
Proof. induction kept as [|k kept IH]; csimpl; [done|]. by rewrite IH. Qed.

(** What the loop of [divide_args] leaves in the array: with [pre] already
    stored, the next segments other than [&] follow, as many as fit below
    index [MAX_ARGS - 1]. *)
Lemma divide_loop_stored (segments : list string) :
  forall (pre suf : list (option string)) (background : Z),
    (length pre <= 63)%nat -> length (pre ++ suf) = 64%nat ->
    let kept := take (63 - length pre) (filter (fun t => t <> "&") segments) in
    (divide_loop segments (Z.of_nat (length pre)) (pre ++ suf) background).1 =
    (Z.of_nat (length pre + length kept),
     pre ++ (Some <$> kept) ++ drop (length kept) suf)%list.
Proof.
  induction segments as [|seg rest IH]; intros pre suf bg Hpre Hlen;
    cbn [divide_loop].
  { rewrite filter_nil, take_nil. cbn [length fmap list_fmap app drop fst].
    by rewrite Nat.add_0_r. }
  unfold MAX_ARGS.
  destruct (Z.ltb_spec (Z.of_nat (length pre)) (64 - 1)) as [Hlt|Hge].
  - destruct (String.eqb_spec seg "&") as [->|Hne].
    + rewrite filter_cons_False by (intros H; by apply H). by apply IH.
    + rewrite filter_cons_True by done.
      rewrite length_app in Hlen.
      destruct suf as [|x suf]; [simpl in Hlen; lia|].
      rewrite Nat2Z.id, insert_app_r_alt, Nat.sub_diag by lia.
      cbn [insert list_insert].
      replace (Z.of_nat (length pre) + 1) with (Z.of_nat (length (pre ++ [Some seg])))
        by (rewrite length_app; simpl; lia).
      rewrite (cons_middle (Some seg) pre suf), app_assoc.
      rewrite IH; [|rewrite length_app; simpl; lia
                   |rewrite !length_app in *; simpl in *; lia].
      rewrite length_app. cbn [length].
      replace (63 - length pre)%nat with (S (63 - (length pre + 1))) by lia.
      rewrite firstn_cons, fmap_cons. cbn [length drop].
      rewrite <- app_assoc. cbn [app].
      do 2 f_equal. lia.
  - replace (63 - length pre)%nat with 0%nat by lia. rewrite take_0.
    cbn [length fmap list_fmap app drop fst]. by rewrite Nat.add_0_r.
Qed.

(** Once set, the flag stays set. *)
Lemma divide_loop_flag_kept (segments : list string) :
  forall i args, (divide_loop segments i args 1).2 = 1.
Proof.
  induction segments as [|seg rest IH]; intros i args; simpl; [done|].
  destruct (i <? MAX_ARGS - 1); [|done]. by destruct (String.eqb seg "&").
Qed.

(** An [&] reached while fewer than [MAX_ARGS - 1] arguments are stored
    sets the flag. *)
Lemma divide_loop_flag_set (pre post : list string) :
  forall i args background,
    0 <= i ->
    i + Z.of_nat (length (filter (fun t => t <> "&") pre)) < MAX_ARGS - 1 ->
    (divide_loop (pre ++ "&" :: post) i args background).2 = 1.
Proof.
  induction pre as [|p pre IH]; intros i args bg Hi Hroom;
    cbn [app divide_loop];
    (destruct (Z.ltb_spec i (MAX_ARGS - 1)) as [_|Hfull];
     [|exfalso; revert Hroom Hfull; unfold MAX_ARGS; lia]).
  - apply divide_loop_flag_kept.
  - destruct (String.eqb_spec p "&") as [->|Hne];
      [apply divide_loop_flag_kept|].
    rewrite filter_cons_True in Hroom by done. cbn [length] in Hroom.
    apply IH; lia.
Qed.

(** Without an [&] the flag is left as it was. *)
Lemma divide_loop_flag_left (segments : list string) :
  forall i args background,
    "&" ∉ segments -> (divide_loop segments i args background).2 = background.
Proof.
  induction segments as [|seg rest IH]; intros i args bg Hno; simpl; [done|].
  apply not_elem_of_cons in Hno as [Hne Hno].
  destruct (i <? MAX_ARGS - 1); [|done].
  destruct (String.eqb_spec seg "&") as [->|_]; [done|]. by apply IH.
Qed.

(** An [&] that comes only after [MAX_ARGS - 1] arguments are stored is
    never looked at. *)
Lemma divide_loop_flag_late (segments : list string) :
  forall i args background,
    (forall pre post,
        segments = (pre ++ "&" :: post)%list ->
        MAX_ARGS - 1 <= i + Z.of_nat (length (filter (fun t => t <> "&") pre))) ->
    (divide_loop segments i args background).2 = background.
Proof.
  induction segments as [|seg rest IH]; intros i args bg Hlate;
    cbn [divide_loop]; [done|].
  destruct (Z.ltb_spec i (MAX_ARGS - 1)) as [Hlt|_]; [|done].
  destruct (String.eqb_spec seg "&") as [->|Hne].
  - specialize (Hlate [] rest eq_refl). rewrite filter_nil in Hlate.
    cbn [length] in Hlate. lia.
  - apply IH. intros pre post ->.
    specialize (Hlate (seg :: pre) post eq_refl).
    rewrite filter_cons_True in Hlate by done. cbn [length] in Hlate. lia.
Qed.

Lemma list_ascii_of_string_app (a b : string) :
  list_ascii_of_string (a ++ b) = (list_ascii_of_string a ++ list_ascii_of_string b)%list.
Proof. induction a as [|c a IH]; simpl; [done|]. by rewrite IH. Qed.

Lemma strtok_from_spaceless (s : string) :
  forall cur, " "%char ∉ list_ascii_of_string cur ->
              Forall spaceless (strtok_from s cur).
Proof.
  induction s as [|c s IH]; intros cur Hcur; simpl.
  - destruct (String.eqb_spec cur ""); [constructor|].
    by repeat constructor.
  - destruct (Ascii.eqb_spec c " "%char) as [->|Hc].
    + destruct (String.eqb_spec cur "").
      * apply IH. simpl. apply not_elem_of_nil.
      * constructor; [done|]. apply IH. simpl. apply not_elem_of_nil.
    + apply IH. rewrite list_ascii_of_string_app. simpl.
      rewrite elem_of_app, list_elem_of_singleton. intros [?|?]; [done|congruence].
Qed.

Lemma strtok_spaceless (input : string) : Forall spaceless (strtok input).
Proof. apply strtok_from_spaceless. simpl. apply not_elem_of_nil. Qed.

Lemma divide_args_stored (line : string) (args0 : list (option string))
    (background : Z) :
  length args0 = 64%nat ->
  let kept := kept_arguments (strtok line) in
  (divide_args line args0 background).1 =
  (Z.of_nat (length kept),
   (Some <$> kept) ++ None :: drop (S (length kept)) args0)%list.
Proof.
  intros Hlen kept. unfold divide_args.
  pose proof (divide_loop_stored (strtok line) [] args0 background) as H.
  cbn [length app] in H. specialize (H ltac:(lia) Hlen).
  change (Z.of_nat 0) with 0 in H.
  destruct (divide_loop (strtok line) 0 args0 background) as [[i args'] bg'].
  cbn [fst] in *. injection H as -> ->.
  change (take _ (filter _ (strtok line))) with kept.
  assert (Hk : (length kept <= 63)%nat).
  { unfold kept, kept_arguments. rewrite length_take.
    change (Z.to_nat _) with 63%nat. lia. }
  f_equal. rewrite Nat2Z.id.
  rewrite insert_app_r_alt by (rewrite length_fmap; lia).
  rewrite length_fmap, Nat.sub_diag.
  destruct (drop (length kept) args0) as [|x r] eqn:Hd.
  { apply (f_equal length) in Hd. rewrite length_drop in Hd. simpl in Hd. lia. }
  cbn [insert list_insert]. do 2 f_equal.
  change (S (length kept)) with (1 + length kept)%nat.
  rewrite Nat.add_comm, <- drop_drop, Hd. done.
Qed.

(** C8 (as the code has it): the line is split at spaces into non-empty
    tokens; the tokens other than [&] are stored in order, at most
    [MAX_ARGS - 1] of them, followed by NULL, and their number is returned;
    [&] is never stored; an [&] met while fewer than [MAX_ARGS - 1]
    arguments are stored sets the background flag, and when every [&]
    comes later than that (or there is none) the flag is left alone.  For
    [ls -l &] the vector is [ls], [-l], the count 2 and the flag 1. *)
Theorem divide_args_ampersand (line : string) (args0 : list (option string))
    (background0 : Z) :
  length args0 = Z.to_nat MAX_ARGS ->
  let r := divide_args line args0 background0 in
  let n := r.1.1 in
  let args' := r.1.2 in
  let background' := r.2 in
  Forall spaceless (strtok line) /\
  argv args' 0 = kept_arguments (strtok line) /\
  n = Z.of_nat (length (argv args' 0)) /\
  arg args' n = None /\
  ("&" ∉ argv args' 0) /\
  (forall pre post,
      strtok line = (pre ++ "&" :: post)%list ->
      Z.of_nat (length (filter (fun t => t <> "&") pre)) < MAX_ARGS - 1 ->
      background' = 1) /\
  ((forall pre post,
       strtok line = (pre ++ "&" :: post)%list ->
       MAX_ARGS - 1 <= Z.of_nat (length (filter (fun t => t <> "&") pre))) ->
   background' = background0) /\
  (line = "ls -l &" ->
   argv args' 0 = ["ls"; "-l"] /\ n = 2 /\ background' = 1).
Proof.
  intros Hlen r n args' background'.
  pose proof (divide_args_stored line args0 background0 Hlen) as Hst.
  cbv zeta in Hst. fold r in Hst.
  assert (Hflag : background' =
                  (divide_loop (strtok line) 0 args0 background0).2).
  { subst background' r. unfold divide_args.
    by destruct (divide_loop (strtok line) 0 args0 background0) as [[? ?] ?]. }
  assert (Hn : n = Z.of_nat (length (kept_arguments (strtok line))))
    by (subst n; by rewrite Hst).
  assert (Hargs : args' = ((Some <$> kept_arguments (strtok line)) ++ None ::
                    drop (S (length (kept_arguments (strtok line)))) args0)%list)
    by (subst args'; by rewrite Hst).
  assert (Hargv : argv args' 0 = kept_arguments (strtok line)).
  { rewrite Hargs. unfold argv. change (Z.to_nat 0) with 0%nat.
    rewrite drop_0. apply until_null_stored. }
  assert (Hset : forall pre post,
             strtok line = (pre ++ "&" :: post)%list ->
             Z.of_nat (length (filter (fun t => t <> "&") pre)) < MAX_ARGS - 1 ->
             background' = 1).
  { intros pre post Htok Hroom. rewrite Hflag, Htok.
    apply divide_loop_flag_set; lia. }
  split; [apply strtok_spaceless|]. split; [done|].
  split; [by rewrite Hargv|]. split; [|split; [|split; [done|split]]].
  - rewrite Hargs, Hn. unfold arg. rewrite Nat2Z.id.
    rewrite lookup_app_r by (rewrite length_fmap; lia).
    by rewrite length_fmap, Nat.sub_diag.
  - rewrite Hargv. unfold kept_arguments. intros Hin.
    apply subseteq_take, list_elem_of_filter in Hin as [Hne _]. by apply Hne.
  - intros Hlate. rewrite Hflag. apply divide_loop_flag_late.
    intros pre post Htok. specialize (Hlate pre post Htok). lia.
  - intros ->. split; [by rewrite Hargv|]. split; [by rewrite Hn|].
    by apply (Hset ["ls"; "-l"] []).
Qed.

Lemma divide_args_ampersand_witness :
  argv (divide_args "ls -l &" (replicate 64 None) 0).1.2 0 = ["ls"; "-l"] /\
  (divide_args "ls -l &" (replicate 64 None) 0).1.1 = 2 /\
  (divide_args "ls -l &" (replicate 64 None) 0).2 = 1.
Proof.
  apply (divide_args_ampersand "ls -l &" (replicate 64 None) 0).
  - reflexivity.
  - reflexivity.
Defined.

(** C8 as stated fails: an [&] that comes after [MAX_ARGS - 1] = 63 stored
    arguments is a token of the line, yet the loop has stopped before
    looking at it and the background flag stays 0. *)
Lemma ampersand_after_63_arguments :
  let line := String.concat " " (replicate 63 "a") ++ " &" in
  "&" ∈ strtok line /\
  (divide_args line (replicate 64 None) 0).2 = 0 /\
  ~ (forall line args0 background0,
        length args0 = Z.to_nat MAX_ARGS -> "&" ∈ strtok line ->
        (divide_args line args0 background0).2 = 1).
Proof.
  intros line.
  assert (Hin : "&" ∈ strtok line)
    by (apply (bool_decide_unpack _); vm_compute; exact I).
  assert (H0 : (divide_args line (replicate 64 None) 0).2 = 0) by (by vm_compute).
  split; [done|]. split; [done|].
  intros H. specialize (H line (replicate 64 None) 0 eq_refl Hin).
  rewrite H0 in H. discriminate H.
Qed.

(** ** Redirection *)

Lemma list_length_64_front {A} (l : list A) :
  length l = 64%nat ->
  exists a0 a1 a2 a3 a4 a5 rest, l = a0 :: a1 :: a2 :: a3 :: a4 :: a5 :: rest.
Proof.
  destruct l as [|a0 [|a1 [|a2 [|a3 [|a4 [|a5 rest]]]]]]; try discriminate.
  intros _. by exists a0, a1, a2, a3, a4, a5, rest.
Qed.

(** C2 (as the code has it): for [sort < a.txt > b.txt] the scan stops at
    the [<]: [a.txt] becomes the input file, no output file is set, and the
    argument array is cut at the [<], so the command is started as [sort]
    alone.  The tokens [>] and [b.txt] stay in the array behind the NULL:
    they are not a second redirection, and they are not passed to the
    command either. *)
Theorem first_redirection_only (s : shell) :
  c_string (input s) = "sort < a.txt > b.txt" ->
  length (args s) = Z.to_nat MAX_ARGS ->
  let args1 := (divide_args (c_string (input s)) (args s) 0).1.2 in
  handle_pipe args1 5 = None /\
  (handle_input_or_output args1 5 None None).1.2 = Some "a.txt" /\
  (handle_input_or_output args1 5 None None).2 = None /\
  fst (run_line s) = Next /\
  take 6 (args (snd (run_line s))) =
    [Some "sort"; None; Some "a.txt"; Some ">"; Some "b.txt"; None] /\
  trace (snd (run_line s)) =
    (trace s ++ [Run ["sort"] 0 (Some "a.txt") None])%list.
Proof.
  intros Hline Hlen. unfold run_line. rewrite Hline.
  destruct (list_length_64_front _ Hlen)
    as (a0 & a1 & a2 & a3 & a4 & a5 & rest & ->).
  repeat split; reflexivity.
Qed.

Lemma first_redirection_only_witness :
  trace (snd (run_line
    (mkShell initial_history (of_string "sort < a.txt > b.txt")
             (replicate 64 None) 0 0 [] [])))
  = [Run ["sort"] 0 (Some "a.txt") None].
Proof.
  apply (first_redirection_only
           (mkShell initial_history (of_string "sort < a.txt > b.txt")
                    (replicate 64 None) 0 0 [] [])).
  - reflexivity.
  - reflexivity.
Defined.

(** C2 as stated fails: typing [sort < a.txt > b.txt] and Enter starts
    exactly one process, [sort] with no further argument; no process is
    handed [>] or [b.txt]. *)
Lemma redirection_rest_not_passed :
  let s' := snd (main_iteration
                   (boot [] (replicate 64 None)
                         (of_string "sort < a.txt > b.txt" ++ [LF])%list)) in
  filter (fun ev => is_spawn ev = true) (trace s')
  = [Run ["sort"] 0 (Some "a.txt") None] /\
  ~ (exists argv0 bg, Run argv0 bg (Some "a.txt") None ∈ trace s' /\
                      ">" ∈ argv0 /\ "b.txt" ∈ argv0).
Proof.
  intros s'.
  assert (Hspawn : filter (fun ev => is_spawn ev = true) (trace s')
                   = [Run ["sort"] 0 (Some "a.txt") None]) by (by vm_compute).
  split; [done|].
  intros (argv0 & bg & Hin & Hgt & _).
  assert (Hin' : Run argv0 bg (Some "a.txt") None
                 ∈ filter (fun ev => is_spawn ev = true) (trace s'))
    by (by apply list_elem_of_filter).
  rewrite Hspawn in Hin'. apply list_elem_of_singleton in Hin'.
  injection Hin' as -> ->.
  apply list_elem_of_singleton in Hgt. discriminate Hgt.
Qed.

(** * Further properties of the code *)

(** ** The prompt *)

Lemma string_app_nil (a : string) : "" ++ a = a.
Proof. reflexivity. Qed.

Lemma string_app_cons (c : ascii) (a b : string) :
  String c a ++ b = String c (a ++ b).
Proof. reflexivity. Qed.

Lemma last_dir_scan_slash_free (leaf last : string) :
  slash_free leaf -> last_dir_scan leaf last = last.
Proof.
  unfold slash_free. revert last.
  induction leaf as [|c leaf IH]; intros last Hno; simpl; [done|].
  simpl in Hno. apply not_elem_of_cons in Hno as [Hc Hno].
  destruct (Ascii.eqb_spec c "/"%char) as [->|_]; [done|]. by apply IH.
Qed.

Lemma last_dir_scan_leaf (dir leaf : string) :
  leaf <> "" -> slash_free leaf ->
  forall last, last_dir_scan (dir ++ String "/" leaf) last = leaf.
Proof.
  intros Hne Hno. induction dir as [|c dir IH]; intros last.
  - rewrite string_app_nil. cbn [last_dir_scan].
    change (Ascii.eqb "/" "/") with true. cbv iota.
    destruct (String.eqb_spec leaf "") as [|_]; [done|].
    by apply last_dir_scan_slash_free.
  - rewrite string_app_cons. cbn [last_dir_scan].
    destruct (Ascii.eqb_spec c "/"%char) as [->|_]; [|apply IH].
    destruct (String.eqb_spec (dir ++ String "/" leaf) "") as [E|_]; [|apply IH].
    by destruct dir.
Qed.

Lemma last_dir_scan_trailing (dir : string) :
  forall last, last_dir_scan (dir ++ "/") last = "/".
Proof.
  induction dir as [|c dir IH]; intros last; [done|].
  rewrite string_app_cons. cbn [last_dir_scan].
  destruct (Ascii.eqb_spec c "/"%char) as [->|_]; [|apply IH].
  destruct (String.eqb_spec (dir ++ "/") "") as [E|_]; [|apply IH].
  by destruct dir.
Qed.

Lemma last_dir_scan_suffix (rest : string) :
  forall pre last,
    (exists p, (pre ++ rest) = p ++ last) ->
    exists p, (pre ++ rest) = p ++ last_dir_scan rest last.
Proof.
  induction rest as [|c rest IH]; intros pre last Hlast; simpl; [done|].
  assert (Hshift : pre ++ String c rest = (pre ++ String c "") ++ rest).
  { clear. induction pre as [|x pre IH]; [done|].
    by rewrite !string_app_cons, IH. }
  destruct (Ascii.eqb c "/"%char).
  - destruct (String.eqb rest ""); [by exists pre|].
    rewrite Hshift. apply IH. by exists (pre ++ String c "").
  - rewrite Hshift. apply IH. by rewrite <- Hshift.
Qed.

(** X1: the prompt names the last component of the working directory: for
    a path [dir/leaf] with a non-empty, slash-free [leaf] it shows [leaf]; a
    path without any slash is shown whole; a path that ends in a slash
    (the root among them) is shown as [/]; and what is shown is always a
    tail of the path. *)
Theorem prompt_shows_last_component :
  (forall dir leaf,
      leaf <> "" -> slash_free leaf ->
      prompt_text (dir ++ "/" ++ leaf) = "osc:" ++ leaf ++ "> ") /\
  (forall path, slash_free path -> prompt_text path = "osc:" ++ path ++ "> ") /\
  (forall dir, prompt_text (dir ++ "/") = "osc:/> ") /\
  (forall path, exists front, path = front ++ last_dir path).
Proof.
  repeat split.
  - intros dir leaf Hne Hno. unfold prompt_text, last_dir.
    change (dir ++ "/" ++ leaf) with (dir ++ String "/" leaf).
    destruct (String.eqb_spec (dir ++ String "/" leaf) "/") as [E|_].
    + destruct dir as [|c [|]]; try discriminate.
      destruct leaf; [done|discriminate].
    + by rewrite last_dir_scan_leaf.
  - intros path Hno. unfold prompt_text, last_dir.
    destruct (String.eqb_spec path "/") as [->|_].
    + exfalso. apply Hno. simpl. by left.
    + by rewrite last_dir_scan_slash_free.
  - intros dir. unfold prompt_text, last_dir.
    destruct (String.eqb (dir ++ "/") "/"); [done|].
    by rewrite last_dir_scan_trailing.
  - intros path. unfold last_dir.
    destruct (String.eqb_spec path "/") as [->|_]; [by exists ""|].
    apply (last_dir_scan_suffix path "" path). by exists "".
Qed.

Lemma prompt_shows_last_component_witness :
  prompt_text "/home/user/linuxShell" = "osc:linuxShell> ".
Proof.
  apply (proj1 prompt_shows_last_component "/home/user" "linuxShell").
  - discriminate.
  - unfold slash_free. apply (bool_decide_unpack _). vm_compute. exact I.
Defined.

(** ** The history ring against the plain list of accepted commands *)

Lemma last_drop_lt {A} (l : list A) (k : nat) :
  (k < length l)%nat -> last (drop k l) = last l.
Proof.
  intros Hk. rewrite <- (take_drop k l) at 2.
  rewrite last_app. destruct (last (drop k l)) eqn:E; [done|].
  apply last_None in E. apply (f_equal length) in E.
  rewrite length_drop in E. simpl in E. lia.
Qed.

Lemma accepted_snoc (cmds : list string) (cmd : string) :
  accepted (cmds ++ [cmd]) = accept (accepted cmds) cmd.
Proof. unfold accepted. by rewrite fold_left_app. Qed.

Lemma last_five_snoc {A} (l : list A) (x : A) :
  drop (length (l ++ [x]) - 5) (l ++ [x]) =
  ((if (length l <? 5)%nat then drop (length l - 5) l
    else tail (drop (length l - 5) l)) ++ [x])%list.
Proof.
  rewrite length_app. cbn [length].
  destruct (Nat.ltb_spec (length l) 5) as [Hlt|Hge].
  - replace (length l + 1 - 5)%nat with 0%nat by lia.
    by replace (length l - 5)%nat with 0%nat by lia.
  - rewrite tail_drop.
    replace (length l + 1 - 5)%nat with (S (length l - 5)) by lia.
    by rewrite drop_app_le by lia.
Qed.

(** X2: whatever is submitted, in whatever order, the ring read from
    oldest to newest is the last [BUFFER_SIZE] of the commands accepted:
    the submissions without the empty ones and without immediate
    repeats. *)
Theorem history_is_last_five_accepted (cmds : list string) :
  entries (appends cmds) =
  drop (length (accepted cmds) - Z.to_nat BUFFER_SIZE) (accepted cmds).
Proof.
  change (Z.to_nat BUFFER_SIZE) with 5%nat.
  induction cmds as [|c cmds IH] using rev_ind; [done|].
  rewrite appends_snoc, accepted_snoc.
  set (g := appends cmds) in *. set (A := accepted cmds) in *.
  pose proof (ring_ok_appends cmds) as Hok. fold g in Hok.
  pose proof (length_entries g) as Hlen. rewrite IH, length_drop in Hlen.
  assert (Hcount : 0 <= command_count g <= 5)
    by (unfold ring_ok, counters_ok, BUFFER_SIZE in Hok; lia).
  assert (Hlast : 0 < command_count g -> last A = Some (slot g (last_index g))).
  { intros Hpos. rewrite <- (newest_is_last g Hok Hpos), IH.
    symmetry. apply last_drop_lt. lia. }
  unfold accept.
  destruct (decide (c = "" \/ last A = Some c)) as [[->|Hdup]|Hnew].
  - done.
  - assert (Hpos : 0 < command_count g).
    { destruct A as [|a A']; [done|]. simpl in Hlen. lia. }
    rewrite add_to_buffer_same; [done|done|].
    rewrite (Hlast Hpos) in Hdup. congruence.
  - rewrite entries_add_fresh; [|done|tauto|].
    + rewrite IH, last_five_snoc.
      destruct (Z.ltb_spec (command_count g) BUFFER_SIZE) as [H1|H1],
               (Nat.ltb_spec (length A) 5) as [H2|H2];
        unfold BUFFER_SIZE in H1; try done; lia.
    + intros Hpos Heq. apply Hnew. right. rewrite (Hlast Hpos). congruence.
Qed.

(** ** [strtok] *)

Lemma strtok_from_token (t : string) :
  " "%char ∉ list_ascii_of_string t ->
  forall rest cur, strtok_from (t ++ rest) cur = strtok_from rest (cur ++ t).
Proof.
  induction t as [|c t IH]; intros Hno rest cur.
  - rewrite string_app_nil. f_equal. clear. induction cur as [|x cur IH]; [done|].
    by rewrite string_app_cons, <- IH.
  - simpl in Hno. apply not_elem_of_cons in Hno as [Hc Hno].
    rewrite string_app_cons. cbn [strtok_from].
    destruct (Ascii.eqb_spec c " "%char) as [->|_]; [done|].
    rewrite IH by done. f_equal. clear.
    induction cur as [|x cur IH]; [done|].
    by rewrite !string_app_cons, <- IH.
Qed.

Lemma string_app_assoc (a b c : string) : (a ++ b) ++ c = a ++ (b ++ c).
Proof.
  induction a as [|x a IH]; [done|]. by rewrite !string_app_cons, IH.
Qed.

Lemma string_app_nil_r (a : string) : a ++ "" = a.
Proof. induction a as [|x a IH]; [done|]. by rewrite string_app_cons, IH. Qed.

Lemma strtok_from_spaces (n : nat) (rest : string) :
  strtok_from (spaces n ++ rest) "" = strtok_from rest "".
Proof. induction n as [|n IH]; [done|]. exact IH. Qed.

Lemma strtok_from_gap (n : nat) (rest cur : string) :
  cur <> "" ->
  strtok_from (spaces (S n) ++ rest) cur = cur :: strtok_from rest "".
Proof.
  intros Hcur. cbn [spaces]. rewrite string_app_cons. cbn [strtok_from].
  change (Ascii.eqb " " " ") with true. cbv iota.
  destruct (String.eqb_spec cur "") as [|_]; [done|].
  by rewrite strtok_from_spaces.
Qed.

Lemma strtok_from_tail (m : nat) (cur : string) :
  cur <> "" -> strtok_from (spaces m) cur = [cur].
Proof.
  intros Hcur. destruct m as [|m].
  - cbn. by destruct (String.eqb_spec cur "").
  - rewrite <- (string_app_nil_r (spaces (S m))). by rewrite strtok_from_gap.
Qed.

(** X3: [strtok] undoes joining: tokens that are non-empty and hold no
    space, joined by one or more spaces each time, with any number of
    spaces before and after, are given back exactly, in order. *)
Theorem strtok_of_joined (tokens : list string) (before gap after : nat) :
  Forall spaceless tokens ->
  strtok (spaces before ++ String.concat (spaces (S gap)) tokens ++ spaces after)
  = tokens.
Proof.
  intros Htok. unfold strtok. rewrite strtok_from_spaces.
  induction Htok as [|t rest [Hne Hsp] Hrest IH].
  - cbn [String.concat]. rewrite string_app_nil.
    rewrite <- (string_app_nil_r (spaces after)). by rewrite strtok_from_spaces.
  - destruct rest as [|t' rest].
    + cbn [String.concat]. rewrite strtok_from_token by done.
      rewrite string_app_nil. by apply strtok_from_tail.
    + change (String.concat (spaces (S gap)) (t :: t' :: rest))
        with (t ++ spaces (S gap) ++ String.concat (spaces (S gap)) (t' :: rest)).
      rewrite !string_app_assoc. rewrite strtok_from_token by done.
      rewrite string_app_nil, strtok_from_gap by done. by rewrite IH.
Qed.

Lemma strtok_of_joined_witness :
  strtok "  grep   -n   main   file.c " = ["grep"; "-n"; "main"; "file.c"].
Proof.
  apply (strtok_of_joined ["grep"; "-n"; "main"; "file.c"] 2 2 1).
  repeat constructor; try discriminate;
    apply (bool_decide_unpack _); vm_compute; exact I.
Defined.

(** ** Character arrays and C strings *)

Lemma c_string_app_NUL (l r : list ascii) :
  c_string (l ++ NUL :: r) = c_string l.
Proof.
  induction l as [|c l IH]; simpl; [done|].
  destruct (Ascii.eqb c NUL); [done|]. by rewrite IH.
Qed.

Lemma c_string_of_string (s : string) :
  NUL ∉ list_ascii_of_string s -> c_string (list_ascii_of_string s) = s.
Proof.
  induction s as [|c s IH]; simpl; intros Hno; [done|].
  apply not_elem_of_cons in Hno as [Hc Hno].
  destruct (Ascii.eqb_spec c NUL) as [E|_]; [congruence|]. by rewrite IH.
Qed.

Lemma c_string_NUL_free (l : list ascii) :
  NUL ∉ list_ascii_of_string (c_string l).
Proof.
  induction l as [|c l IH]; simpl; [apply not_elem_of_nil|].
  destruct (Ascii.eqb_spec c NUL) as [|Hc]; simpl; [apply not_elem_of_nil|].
  apply not_elem_of_cons. split; [congruence|done].
Qed.

Lemma c_string_length (l : list ascii) :
  (String.length (c_string l) <= length l)%nat.
Proof.
  induction l as [|c l IH]; simpl; [done|].
  destruct (Ascii.eqb c NUL); simpl; lia.
Qed.

(** A NUL at index [n] bounds the string by [n]. *)
Lemma c_string_bounded (l : list ascii) (n : nat) :
  l !! n = Some NUL -> (String.length (c_string l) <= n)%nat.
Proof.
  intros Hn. rewrite <- (take_drop_middle l n NUL Hn), c_string_app_NUL.
  etrans; [apply c_string_length|]. rewrite length_take. lia.
Qed.

Lemma c_string_take (l : list ascii) :
  c_string (take (String.length (c_string l)) l) = c_string l.
Proof.
  induction l as [|c l IH]; simpl; [done|].
  destruct (Ascii.eqb c NUL) eqn:E; simpl; [done|]. by rewrite E, IH.
Qed.

Lemma c_string_terminate (l : list ascii) (n : nat) :
  c_string (<[n := NUL]> l) = c_string (take n l).
Proof.
  destruct (decide (n < length l)%nat) as [Hlt|Hge].
  - by rewrite insert_take_drop, c_string_app_NUL.
  - rewrite list_insert_ge, take_ge by lia. done.
Qed.

Lemma length_list_ascii_of_string (s : string) :
  length (list_ascii_of_string s) = String.length s.
Proof. induction s as [|c s IH]; simpl; [done|]. by rewrite IH. Qed.

Lemma c_string_strcpy (dst : list ascii) (s : string) :
  NUL ∉ list_ascii_of_string s -> c_string (strcpy dst s) = s.
Proof.
  intros Hno. unfold strcpy. cbv zeta.
  rewrite <- app_assoc. cbn [app]. rewrite c_string_app_NUL.
  by apply c_string_of_string.
Qed.

Lemma fits_empty : fits "".
Proof. split; [done|]. simpl. apply not_elem_of_nil. Qed.

Lemma fits_slot (g : history_state) (i : Z) : slots_fit g -> fits (slot g i).
Proof.
  intros Hfit. unfold slot.
  destruct (history g !! Z.to_nat i) as [s|] eqn:E; simpl; [|apply fits_empty].
  by eapply Forall_lookup_1.
Qed.

(** ** The handlers keep the line buffer in shape *)

Lemma buffer_ok_fresh (g : history_state) : buffer_ok (fresh_editor g).
Proof.
  unfold buffer_ok, fresh_editor, MAX_LENGTH; cbn [buf count].
  rewrite length_replicate. split; [done|]. split; [lia|].
  apply lookup_replicate_2. lia.
Qed.

Lemma buffer_ok_on_enter (e : editor) : buffer_ok e -> buffer_ok (on_enter e).
Proof.
  unfold buffer_ok, on_enter, MAX_LENGTH; cbn [buf count].
  intros (Hlen & Hc & Hlast). rewrite length_insert. split; [done|]. split; [done|].
  destruct (decide (Z.to_nat (count e) = Z.to_nat (1024 - 1))) as [->|Hne].
  - apply list_lookup_insert_eq. rewrite Hlen. lia.
  - by rewrite list_lookup_insert_ne.
Qed.

Lemma buffer_ok_on_backspace (e : editor) :
  buffer_ok e -> buffer_ok (on_backspace e).
Proof.
  unfold buffer_ok, on_backspace, MAX_LENGTH. intros (Hlen & Hc & Hlast).
  destruct (Z.gtb_spec (count e) 0); cbn [buf count]; [|done].
  split; [done|]. split; [lia|done].
Qed.

Lemma buffer_ok_on_char (c : ascii) (e : editor) :
  buffer_ok e -> buffer_ok (on_char c e).
Proof.
  unfold buffer_ok, on_char, MAX_LENGTH. intros (Hlen & Hc & Hlast).
  destruct (Z.ltb_spec (count e) (1024 - 1)); cbn [buf count]; [|done].
  rewrite length_insert. split; [done|]. split; [lia|].
  rewrite list_lookup_insert_ne; [done|]. lia.
Qed.

Lemma buffer_ok_load_entry (e : editor) (b : Z) :
  slots_fit (hist e) -> buffer_ok e ->
  buffer_ok (load_entry e b) /\
  c_string (buf (load_entry e b)) = slot (hist e) b /\
  count (load_entry e b) = strlen (slot (hist e) b).
Proof.
  intros Hfit (Hlen & Hc & Hlast).
  destruct (fits_slot (hist e) b Hfit) as [Hshort Hnul].
  unfold load_entry. cbv zeta. cbn [buf count].
  change (slot (set_buffer_index (hist e) b) b) with (slot (hist e) b).
  set (s := slot (hist e) b) in *.
  rewrite (c_string_strcpy _ _ Hnul).
  split; [|done].
  unfold buffer_ok, strlen, MAX_LENGTH in *. cbn [buf count].
  unfold strcpy. cbv zeta.
  assert (Hb : length (list_ascii_of_string s ++ [NUL]) = S (String.length s))
    by (rewrite length_app, length_list_ascii_of_string; simpl; lia).
  rewrite Hb, length_app, length_drop, Hb.
  split; [lia|]. split; [lia|].
  destruct (decide (String.length s = 1023)%nat) as [E|Hne].
  - rewrite lookup_app_l by lia.
    rewrite lookup_app_r by (rewrite length_list_ascii_of_string; lia).
    rewrite length_list_ascii_of_string.
    by replace (Z.to_nat (1024 - 1) - String.length s)%nat with 0%nat by lia.
  - rewrite lookup_app_r by lia.
    rewrite lookup_drop, Hb, <- Hlast. f_equal. lia.
Qed.

Lemma buffer_ok_on_escape (seq0 seq1 : ascii) (e : editor) :
  slots_fit (hist e) -> buffer_ok e ->
  buffer_ok (on_escape seq0 seq1 e) /\ slots_fit (hist (on_escape seq0 seq1 e)).
Proof.
  intros Hfit Hok. unfold on_escape, on_up, on_down.
  repeat case_match; try done;
    try (split; [by apply buffer_ok_load_entry|done]).
  destruct Hok as (Hlen & Hc & Hlast).
  unfold buffer_ok, MAX_LENGTH in *. cbn [buf count hist].
  rewrite length_insert. split; [|done]. split; [done|]. split; [done|].
  rewrite list_lookup_insert_ne; [done|lia].
Qed.

Lemma read_loop_buffer_ok (bytes : list ascii) (e : editor) :
  slots_fit (hist e) -> buffer_ok e ->
  buffer_ok (fst (read_loop bytes e)) /\ slots_fit (hist (fst (read_loop bytes e))).
Proof.
  intros Hfit Hok.
  apply (read_loop_preserves (fun e => buffer_ok e /\ slots_fit (hist e)));
    [| | | |done].
  - intros e0 [? ?]. split; [by apply buffer_ok_on_enter|done].
  - intros e0 [? ?]. split; [by apply buffer_ok_on_backspace|].
    unfold on_backspace. by case_match.
  - intros seq0 seq1 e0 [? ?]. by apply buffer_ok_on_escape.
  - intros c e0 [? ?]. split; [by apply buffer_ok_on_char|].
    unfold on_char. by case_match.
Qed.

Lemma slots_fit_same_ring (g g' : history_state) :
  same_ring g g' -> slots_fit g -> slots_fit g'.
Proof. intros (Hh & _ & _). unfold slots_fit. by rewrite Hh. Qed.

Lemma buffer_ok_line_fits (e : editor) : buffer_ok e -> fits (c_string (buf e)).
Proof.
  intros (Hlen & Hc & Hlast). split; [|apply c_string_NUL_free].
  apply c_string_bounded in Hlast. unfold strlen, MAX_LENGTH in *. lia.
Qed.

Lemma read_loop_buffer_ok_get_input (bytes : list ascii) (g : history_state) :
  slots_fit g -> buffer_ok (fst (get_input bytes g)).
Proof.
  intros Hfit. apply read_loop_buffer_ok; [|apply buffer_ok_fresh].
  cbn [hist]. apply (slots_fit_same_ring g); [apply warm_up_same_ring|done].
Qed.

(** X4: whatever bytes arrive, and whatever is recalled from a history
    whose entries fit their slots, the line editor stays inside its buffer:
    the buffer keeps its [MAX_LENGTH] cells, the count stays an index into
    it, the last cell stays NUL, and the line handed back is shorter than
    [MAX_LENGTH]. *)
Theorem get_input_stays_in_buffer (bytes : list ascii) (g : history_state) :
  slots_fit g ->
  let e := fst (get_input bytes g) in
  buffer_ok e /\ fits (c_string (buf e)) /\
  0 <= count e <= MAX_LENGTH - 1.
Proof.
  intros Hfit e.
  assert (Hok : buffer_ok e) by (by apply read_loop_buffer_ok_get_input).
  split; [done|]. split; [by apply buffer_ok_line_fits|].
  destruct Hok as (_ & Hc & _). lia.
Qed.

Lemma get_input_stays_in_buffer_witness :
  0 <= count (fst (get_input (of_string "ls -l") (appends ["pwd"]))) <= MAX_LENGTH - 1.
Proof.
  apply (get_input_stays_in_buffer (of_string "ls -l") (appends ["pwd"])).
  unfold slots_fit. apply (bool_decide_unpack _). vm_compute. exact I.
Defined.

(** ** Typing and erasing *)

Lemma pending_length (e : editor) :
  buffer_ok e -> length (pending e) = Z.to_nat (count e).
Proof.
  intros (Hlen & Hc & _). unfold pending, MAX_LENGTH in *.
  rewrite length_take. lia.
Qed.

Lemma pending_on_backspace (e : editor) :
  buffer_ok e -> pending (on_backspace e) = removelast (pending e).
Proof.
  intros (Hlen & Hc & _). unfold pending, on_backspace, MAX_LENGTH in *.
  destruct (Z.gtb_spec (count e) 0) as [Hpos|Hzero]; cbn [buf count].
  - replace (Z.to_nat (count e)) with (S (Z.to_nat (count e - 1))) by lia.
    destruct (lookup_lt_is_Some_2 (buf e) (Z.to_nat (count e - 1))) as [x Hx];
      [lia|].
    by rewrite (take_S_r _ _ x Hx), removelast_last.
  - by replace (count e) with 0 by lia.
Qed.

Lemma pending_on_char (c : ascii) (e : editor) :
  buffer_ok e ->
  pending (on_char c e) =
  if count e <? MAX_LENGTH - 1 then (pending e ++ [c])%list else pending e.
Proof.
  intros (Hlen & Hc & _). unfold pending, on_char, MAX_LENGTH in *.
  destruct (Z.ltb_spec (count e) (1024 - 1)) as [Hlt|Hge]; cbn [buf count];
    [|done].
  replace (Z.to_nat (count e + 1)) with (S (Z.to_nat (count e))) by lia.
  rewrite (take_S_r _ _ c) by (apply list_lookup_insert_eq; lia).
  by rewrite take_insert_ge by lia.
Qed.

Lemma read_loop_plain_key (c : ascii) (s : list ascii) (e : editor) :
  plain_key c ->
  read_loop (c :: s) e =
  read_loop s (if Ascii.eqb c DEL || Ascii.eqb c BS then on_backspace e
               else on_char c e).
Proof.
  intros (Hlf & Hcr & Hesc). cbn [read_loop].
  destruct (Ascii.eqb_spec c LF) as [|_]; [done|].
  destruct (Ascii.eqb_spec c CR) as [|_]; [done|]. cbn [orb].
  destruct (Ascii.eqb c DEL || Ascii.eqb c BS); [done|].
  by destruct (Ascii.eqb_spec c ESC) as [|_].
Qed.

(** Plain keys take the editor through [type_key], one byte at a time. *)
Lemma read_loop_typing (keys : list ascii) :
  Forall plain_key keys ->
  forall s e,
    buffer_ok e ->
    exists e',
      read_loop (keys ++ s) e = read_loop s e' /\
      buffer_ok e' /\ hist e' = hist e /\
      pending e' = fold_left type_key keys (pending e).
Proof.
  induction 1 as [|c keys Hc Hkeys IH]; intros s e Hok; [by exists e|].
  cbn [app fold_left]. rewrite read_loop_plain_key by done.
  unfold type_key at 2. rewrite (pending_length e Hok).
  destruct Hok as (Hlen & Hcount & Hlast) eqn:E.
  rewrite Z2Nat.id by lia. clear E.
  destruct (Ascii.eqb c DEL || Ascii.eqb c BS).
  - destruct (IH s (on_backspace e)) as (e' & Hrun & Hok' & Hh & Hp);
      [by apply buffer_ok_on_backspace|].
    exists e'. rewrite Hrun, Hp, pending_on_backspace by done.
    split; [done|]. split; [done|]. split; [|done].
    rewrite Hh. unfold on_backspace. by case_match.
  - destruct (IH s (on_char c e)) as (e' & Hrun & Hok' & Hh & Hp);
      [by apply buffer_ok_on_char|].
    exists e'. rewrite Hrun, Hp, pending_on_char by done.
    split; [done|]. split; [done|]. split; [|done].
    rewrite Hh. unfold on_char. by case_match.
Qed.

Lemma c_string_on_enter (e : editor) :
  c_string (buf (on_enter e)) = c_string (pending e).
Proof. unfold on_enter, pending. cbn [buf]. apply c_string_terminate. Qed.

Lemma read_loop_enter (enter : ascii) (rest : list ascii) (e : editor) :
  enter = LF \/ enter = CR -> read_loop (enter :: rest) e = (on_enter e, rest).
Proof. by intros [-> | ->]. Qed.

Lemma get_input_typed (keys rest : list ascii) (enter : ascii)
    (g : history_state) :
  Forall plain_key keys -> enter = LF \/ enter = CR ->
  c_string (buf (fst (get_input (keys ++ enter :: rest) g))) =
    c_string (fold_left type_key keys []) /\
  snd (get_input (keys ++ enter :: rest) g) = rest.
Proof.
  intros Hkeys Henter. unfold get_input.
  destruct (read_loop_typing keys Hkeys (enter :: rest)
              (fresh_editor (warm_up g)) (buffer_ok_fresh _))
    as (e' & Hrun & _ & _ & Hp).
  unfold fresh_editor in Hrun. rewrite Hrun, read_loop_enter by done.
  cbn [fst snd]. by rewrite c_string_on_enter, Hp.
Qed.

(** X5: a line typed without arrow keys comes out as typed: each delete or
    backspace takes the last byte away (none when there is none), every
    other byte is added until [MAX_LENGTH - 1] bytes are held, and Enter
    (LF or CR) hands back that text up to its first NUL, leaving the bytes
    behind Enter unread. *)
Theorem typed_line_is_returned (keys rest : list ascii) (enter : ascii)
    (g : history_state) :
  Forall plain_key keys -> enter = LF \/ enter = CR ->
  let r := get_input (keys ++ enter :: rest) g in
  let line := fold_left type_key keys [] in
  c_string (buf (fst r)) = c_string line /\
  count (fst r) = Z.of_nat (length line) /\
  snd r = rest.
Proof.
  intros Hkeys Henter r line. subst r. unfold get_input.
  change (mkEditor (replicate (Z.to_nat MAX_LENGTH) NUL) 0 (warm_up g) [])
    with (fresh_editor (warm_up g)).
  destruct (read_loop_typing keys Hkeys (enter :: rest) (fresh_editor (warm_up g))
              (buffer_ok_fresh _)) as (e' & -> & Hok & _ & Hp).
  rewrite read_loop_enter by done. cbn [fst snd].
  change (pending (fresh_editor (warm_up g))) with (@nil ascii) in Hp.
  fold line in Hp. rewrite c_string_on_enter, Hp.
  split; [done|]. split; [|done].
  rewrite <- Hp, (pending_length e' Hok).
  destruct Hok as (_ & Hc & _). cbn [count on_enter]. lia.
Qed.

Lemma typed_line_is_returned_witness :
  c_string (buf (fst (get_input (of_string "lss" ++ [DEL] ++ of_string " -l" ++ [CR])%list
                                initial_history)))
  = "ls -l".
Proof.
  apply (typed_line_is_returned (of_string "lss" ++ [DEL] ++ of_string " -l")%list
           [] CR initial_history).
  - repeat constructor; discriminate.
  - by right.
Defined.

(** ** Recalling with the arrow keys *)

Lemma read_loop_up_keys (K : nat) (s : list ascii) (e : editor) :
  read_loop (up_keys K ++ s) e = read_loop s (Nat.iter K on_up e).
Proof.
  revert e. induction K as [|K IH]; intros e; [done|].
  rewrite Nat.iter_succ_r. unfold up_keys. rewrite replicate_S.
  cbn [concat app]. by rewrite <- IH.
Qed.

Lemma read_loop_down_keys (K : nat) (s : list ascii) (e : editor) :
  read_loop (down_keys K ++ s) e = read_loop s (Nat.iter K on_down e).
Proof.
  revert e. induction K as [|K IH]; intros e; [done|].
  rewrite Nat.iter_succ_r. unfold down_keys. rewrite replicate_S.
  cbn [concat app]. by rewrite <- IH.
Qed.

Lemma move_back_browsing (g : history_state) :
  well_placed g -> 0 < command_count g -> buffer_index (move_back g) <> -1.
Proof.
  destruct g as [h c n b].
  unfold well_placed, counters_ok, cursor_ok, BUFFER_SIZE; simpl.
  intros [[Hc Hn] Hb] Hpos.
  assert (Hb' : -1 <= b < 5) by lia.
  apply Z_cases_0_5 in Hc. apply Z_cases_m1_4 in Hb'.
  assert (Hn' : -1 <= n < 5) by lia. apply Z_cases_m1_4 in Hn'.
  split_cases; try lia; vm_compute; discriminate.
Qed.

Lemma well_placed_move_back (g : history_state) :
  well_placed g -> well_placed (move_back g).
Proof.
  intros [Hc Hb]. split; [|by apply cursor_ok_move_back].
  unfold move_back. repeat case_match; done.
Qed.

Lemma well_placed_move_forward (g : history_state) :
  well_placed g -> well_placed (move_forward g).
Proof.
  intros [Hc Hb]. split; [|by apply cursor_ok_move_forward].
  unfold move_forward. repeat case_match; done.
Qed.

(** An up arrow on a non-empty history leaves the entry under the new
    cursor in the line. *)
Lemma on_up_shows (e : editor) :
  buffer_ok e -> slots_fit (hist e) -> well_placed (hist e) ->
  0 < command_count (hist e) ->
  buffer_index (hist e) = -1 \/ showing e ->
  buffer_ok (on_up e) /\ showing (on_up e).
Proof.
  intros Hok Hfit Hwp Hpos Hstate.
  pose proof (move_back_browsing _ Hwp Hpos) as Hbrowse.
  unfold move_back in Hbrowse. unfold on_up.
  assert ((command_count (hist e) >? 0) = true) as E by lia.
  rewrite E in *.
  destruct (up_target (hist e)) as [b|] eqn:Hup.
  - destruct (buffer_ok_load_entry e b Hfit Hok) as (Hok' & Hline & Hcount).
    split; [done|]. unfold showing. by rewrite Hline, Hcount.
  - split; [done|]. by destruct Hstate.
Qed.

Lemma iter_on_up_shows (K : nat) (e : editor) :
  buffer_ok e -> slots_fit (hist e) -> well_placed (hist e) ->
  0 < command_count (hist e) -> buffer_index (hist e) = -1 ->
  buffer_ok (Nat.iter (S K) on_up e) /\ showing (Nat.iter (S K) on_up e).
Proof.
  intros Hok Hfit Hwp Hpos Hrest.
  induction K as [|K [IHok IHshow]]; [by apply on_up_shows; auto|].
  set (e1 := Nat.iter (S K) on_up e) in *.
  assert (Hh : same_ring (hist e) (hist e1) /\ well_placed (hist e1)).
  { subst e1. rewrite hist_iter_on_up. clear -Hwp.
    induction (S K) as [|n [IH1 IH2]]; simpl; [done|].
    split; [|by apply well_placed_move_back].
    destruct IH1 as (? & ? & ?).
    unfold move_back. repeat case_match; done. }
  destruct Hh as [(Hh & Hc & Hn) Hwp1].
  change (Nat.iter (S (S K)) on_up e) with (on_up e1).
  apply on_up_shows; [done| |done| |by right].
  - unfold slots_fit. by rewrite Hh.
  - by rewrite Hc.
Qed.

Lemma showing_enter (e : editor) :
  showing e -> c_string (buf (on_enter e)) = slot (hist e) (buffer_index (hist e)).
Proof.
  intros [Hline Hcount]. rewrite c_string_on_enter. unfold pending.
  rewrite Hcount, <- Hline. unfold strlen. rewrite Nat2Z.id.
  apply c_string_take.
Qed.

(** Past the oldest entry further up arrows change nothing. *)
Lemma move_back_clamped (g : history_state) (K : nat) :
  ring_ok g -> 0 < command_count g -> buffer_index g = -1 ->
  Nat.iter (5 + K) move_back g = Nat.iter 5 move_back g.
Proof.
  intros Hok Hpos Hb. induction K as [|K IH]; [done|].
  rewrite Nat.add_succ_r, Nat.iter_succ, IH. clear IH.
  change (move_back (Nat.iter 5 move_back g)) with (Nat.iter 6 move_back g).
  ring_cases Hok; simpl in Hpos, Hb; subst; try lia; reflexivity.
Qed.

(** Where [K] up arrows from rest leave the cursor. *)
Lemma up_arrows_reach (g : history_state) (K : nat) :
  ring_ok g -> 0 < command_count g -> buffer_index g = -1 ->
  reverse (entries g) !! (Nat.min (S K) (length (entries g)) - 1)%nat =
  Some (slot g (buffer_index (Nat.iter (S K) move_back g))).
Proof.
  intros Hok Hpos Hb.
  assert (Hsmall : forall k, (k < 5)%nat ->
            reverse (entries g) !! (Nat.min (S k) (length (entries g)) - 1)%nat =
            Some (slot g (buffer_index (Nat.iter (S k) move_back g)))).
  { intros k Hk.
    destruct k as [|[|[|[|[|k]]]]]; try lia;
      ring_cases Hok; simpl in Hpos, Hb; subst; try lia; reflexivity. }
  destruct (decide (K < 5)%nat) as [Hlt|Hge]; [by apply Hsmall|].
  replace (S K) with (5 + (K - 4))%nat by lia.
  rewrite move_back_clamped by done.
  rewrite <- (Hsmall 4%nat) by lia.
  pose proof (length_entries g) as Hlen.
  assert (command_count g <= 5)
    by (unfold ring_ok, counters_ok, BUFFER_SIZE in Hok; lia).
  f_equal. lia.
Qed.

(** X6: on a non-empty history, [K >= 1] up arrows followed by Enter hand
    back the [K]-th newest stored command, and the oldest one once [K]
    exceeds the number stored: the cursor stops there and does not wrap. *)
Theorem up_arrows_recall (K : nat) (rest : list ascii) (enter : ascii)
    (g : history_state) :
  ring_ok g -> cursor_ok g -> slots_fit g -> 0 < command_count g ->
  enter = LF \/ enter = CR ->
  reverse (entries g) !! (Nat.min (S K) (length (entries g)) - 1)%nat =
  Some (c_string (buf (fst (get_input (up_keys (S K) ++ enter :: rest) g)))).
Proof.
  intros Hok Hcur Hfit Hpos Henter.
  assert (Hcnt : counters_ok g) by (by destruct Hok as (_ & ? & _)).
  unfold get_input. rewrite (warm_up_resets g Hcnt Hcur).
  set (g0 := set_buffer_index g (-1)).
  change (mkEditor _ 0 g0 []) with (fresh_editor g0).
  rewrite read_loop_up_keys, read_loop_enter by done. cbn [fst].
  destruct (iter_on_up_shows K (fresh_editor g0)) as [_ Hshow];
    [apply buffer_ok_fresh|done|by split; [|left]|done|done|].
  rewrite (showing_enter _ Hshow), hist_iter_on_up. cbn [hist fresh_editor].
  change (entries g) with (entries g0).
  rewrite (up_arrows_reach g0 K); [|done|done|done].
  f_equal. set (b := buffer_index _). clearbody b.
  clear. unfold slot.
  assert (Hs : same_ring g0 (Nat.iter (S K) move_back g0)).
  { induction (S K) as [|n IH]; simpl; [done|].
    destruct IH as (? & ? & ?). unfold move_back. repeat case_match; done. }
  destruct Hs as (-> & _ & _). done.
Qed.

Lemma up_arrows_recall_witness :
  Some (c_string (buf (fst (get_input (up_keys 2 ++ [LF])%list
                                      (appends ["ls"; "pwd"; "date"])))))
  = Some "pwd".
Proof.
  symmetry.
  apply (up_arrows_recall 1 [] LF (appends ["ls"; "pwd"; "date"])).
  - apply ring_ok_appends.
  - by left.
  - unfold slots_fit. apply (bool_decide_unpack _). vm_compute. exact I.
  - reflexivity.
  - by left.
Defined.

Lemma back_then_almost_forward (g : history_state) (K : nat) :
  ring_ok g -> buffer_index g = -1 -> Z.of_nat (S K) <= command_count g ->
  let g1 := Nat.iter K move_forward (Nat.iter (S K) move_back g) in
  buffer_index g1 = most_recent g1 /\ buffer_index g1 <> -1.
Proof.
  intros Hok Hb HK.
  destruct K as [|[|[|[|[|K]]]]];
    ring_cases Hok; simpl in Hb, HK; subst; try lia; by vm_compute.
Qed.

Lemma on_down_at_newest (e : editor) :
  buffer_index (hist e) = most_recent (hist e) -> buffer_index (hist e) <> -1 ->
  on_down e =
  mkEditor (<[0%nat := NUL]> (buf e)) 0 (set_buffer_index (hist e) (-1))
           (out e ++ [Stdout clear_line; Prompt]).
Proof.
  intros Hnew Hbrowse. unfold on_down, down_target.
  destruct (Z.eqb_spec (buffer_index (hist e)) (-1)) as [|_]; [done|].
  cbn [negb]. by rewrite <- Hnew, Z.eqb_refl.
Qed.

(** X7: going up into the history and back down again does not bring the
    typed text back: after any plain typing, [K] up arrows and [K] down
    arrows (with [1 <= K] and at most as many as commands stored) leave an
    empty line, so Enter hands back the empty string. *)
Theorem up_down_discards_typed_text (keys rest : list ascii) (K : nat)
    (enter : ascii) (g : history_state) :
  Forall plain_key keys -> ring_ok g -> cursor_ok g ->
  Z.of_nat (S K) <= command_count g -> enter = LF \/ enter = CR ->
  let r := get_input (keys ++ up_keys (S K) ++ down_keys (S K) ++ enter :: rest)%list g in
  c_string (buf (fst r)) = "" /\ count (fst r) = 0 /\
  buffer_index (hist (fst r)) = -1 /\ snd r = rest.
Proof.
  intros Hkeys Hok Hcur HK Henter r. subst r.
  assert (Hcnt : counters_ok g) by (by destruct Hok as (_ & ? & _)).
  unfold get_input. rewrite (warm_up_resets g Hcnt Hcur).
  set (g0 := set_buffer_index g (-1)).
  change (mkEditor _ 0 g0 []) with (fresh_editor g0).
  destruct (read_loop_typing keys Hkeys
              (up_keys (S K) ++ down_keys (S K) ++ enter :: rest)%list
              (fresh_editor g0) (buffer_ok_fresh _)) as (e1 & -> & _ & Hh & _).
  cbn [hist fresh_editor] in Hh.
  rewrite read_loop_up_keys, read_loop_down_keys, read_loop_enter by done.
  cbn [fst snd]. rewrite Nat.iter_succ.
  set (e2 := Nat.iter K on_down (Nat.iter (S K) on_up e1)).
  assert (Hg2 : hist e2 =
                Nat.iter K move_forward (Nat.iter (S K) move_back g0))
    by (subst e2; by rewrite hist_iter_on_down, hist_iter_on_up, Hh).
  destruct (back_then_almost_forward g0 K) as [Hnew Hbrowse]; [done|done|done|].
  rewrite <- Hg2 in Hnew, Hbrowse.
  rewrite (on_down_at_newest e2 Hnew Hbrowse).
  rewrite c_string_on_enter. unfold pending. cbn [buf count hist on_enter].
  done.
Qed.

Lemma up_down_discards_typed_text_witness :
  c_string (buf (fst (get_input
     (of_string "make" ++ up_keys 2 ++ down_keys 2 ++ [LF])%list
     (appends ["ls"; "pwd"; "date"])))) = "".
Proof.
  apply (up_down_discards_typed_text (of_string "make") [] 1 LF
           (appends ["ls"; "pwd"; "date"])).
  - repeat constructor; discriminate.
  - apply ring_ok_appends.
  - by left.
  - vm_compute. discriminate.
  - by left.
Defined.

(** ** The argument array after [divide_args] *)

Lemma arg_stored (kept : list string) (tl : list (option string)) (j : nat) :
  (j <= length kept)%nat ->
  arg ((Some <$> kept) ++ None :: tl) (Z.of_nat j) = kept !! j.
Proof.
  intros Hj. unfold arg. rewrite Nat2Z.id.
  destruct (decide (j < length kept)%nat) as [Hlt|Hge].
  - rewrite lookup_app_l by (by rewrite length_fmap).
    rewrite list_lookup_fmap. by destruct (kept !! j).
  - rewrite lookup_app_r by (rewrite length_fmap; lia).
    rewrite length_fmap. replace (j - length kept)%nat with 0%nat by lia.
    cbn. symmetry. apply lookup_ge_None. lia.
Qed.

Lemma arg_is_stored (kept : list string) (tl : list (option string)) (j : nat)
    (s : string) :
  (j <= length kept)%nat ->
  arg_is ((Some <$> kept) ++ None :: tl) (Z.of_nat j) s =
  bool_decide (kept !! j = Some s).
Proof.
  intros Hj. unfold arg_is. rewrite arg_stored by done.
  destruct (kept !! j) as [t|]; [|done].
  destruct (String.eqb_spec t s) as [->|Hne].
  - by rewrite bool_decide_eq_true_2.
  - rewrite bool_decide_eq_false_2; [done|congruence].
Qed.

(** Cutting the stored arguments at index [length l]. *)
Lemma stored_cut (l r : list string) (x : string) (tl : list (option string)) :
  <[length l := None]> ((Some <$> (l ++ x :: r)%list) ++ None :: tl)%list =
  ((Some <$> l) ++ None :: (Some <$> r) ++ None :: tl)%list.
Proof.
  rewrite fmap_app, fmap_cons, <- app_assoc.
  rewrite insert_app_r_alt by (by rewrite length_fmap).
  by rewrite length_fmap, Nat.sub_diag.
Qed.

Lemma argv_front (l : list string) (tl : list (option string)) :
  argv ((Some <$> l) ++ None :: tl) 0 = l.
Proof. unfold argv. change (Z.to_nat 0) with 0%nat. apply until_null_stored. Qed.

Lemma argv_behind (l r : list string) (tl : list (option string)) :
  argv ((Some <$> l) ++ None :: (Some <$> r) ++ None :: tl)
       (Z.of_nat (length l) + 1) = r.
Proof.
  unfold argv. replace (Z.to_nat (Z.of_nat (length l) + 1)) with (S (length l)) by lia.
  rewrite (cons_middle None), app_assoc.
  rewrite drop_app_length' by (rewrite length_app, length_fmap; simpl; lia).
  apply until_null_stored.
Qed.

Lemma find_pipe_none (kept : list string) (tl : list (option string)) (m : nat) :
  forall j, (j + m <= length kept)%nat ->
            (forall i, (j <= i < j + m)%nat -> kept !! i <> Some "|") ->
            find_pipe ((Some <$> kept) ++ None :: tl) (Z.of_nat j) m = None.
Proof.
  induction m as [|m IH]; intros j Hj Hno; cbn [find_pipe]; [done|].
  rewrite arg_is_stored by lia.
  rewrite bool_decide_eq_false_2 by (apply Hno; lia).
  replace (Z.of_nat j + 1) with (Z.of_nat (S j)) by lia.
  apply IH; [lia|]. intros i Hi. apply Hno. lia.
Qed.

Lemma find_pipe_some (kept : list string) (tl : list (option string)) (p : nat) :
  kept !! p = Some "|" ->
  forall m j, (j <= p < j + m)%nat -> (j + m <= length kept)%nat ->
              (forall i, (j <= i < p)%nat -> kept !! i <> Some "|") ->
              find_pipe ((Some <$> kept) ++ None :: tl) (Z.of_nat j) m =
              Some (Z.of_nat p).
Proof.
  intros Hp. induction m as [|m IH]; intros j Hj Hlen Hno; [lia|].
  cbn [find_pipe]. rewrite arg_is_stored by lia.
  destruct (decide (j = p)) as [->|Hne].
  - by rewrite bool_decide_eq_true_2.
  - rewrite bool_decide_eq_false_2 by (apply Hno; lia).
    replace (Z.of_nat j + 1) with (Z.of_nat (S j)) by lia.
    apply IH; [lia|lia|]. intros i Hi. apply Hno. lia.
Qed.

Lemma redirect_scan_none (kept : list string) (tl : list (option string))
    (m : nat) (fin fout : option string) :
  forall j, (j + m <= length kept)%nat ->
            (forall i, (j <= i < j + m)%nat ->
                       kept !! i <> Some ">" /\ kept !! i <> Some "<") ->
            redirect_scan ((Some <$> kept) ++ None :: tl) (Z.of_nat j) m fin fout =
            ((Some <$> kept) ++ None :: tl, fin, fout)%list.
Proof.
  induction m as [|m IH]; intros j Hj Hno; cbn [redirect_scan]; [done|].
  rewrite !arg_is_stored by lia.
  destruct (Hno j ltac:(lia)) as [H1 H2].
  rewrite !bool_decide_eq_false_2 by done.
  replace (Z.of_nat j + 1) with (Z.of_nat (S j)) by lia.
  apply IH; [lia|]. intros i Hi. apply Hno. lia.
Qed.

Lemma redirect_scan_some (kept : list string) (tl : list (option string))
    (p : nat) (fin fout : option string) :
  kept !! p = Some ">" \/ kept !! p = Some "<" ->
  forall m j, (j <= p < j + m)%nat -> (j + m <= length kept)%nat ->
              (forall i, (j <= i < p)%nat ->
                         kept !! i <> Some ">" /\ kept !! i <> Some "<") ->
              redirect_scan ((Some <$> kept) ++ None :: tl) (Z.of_nat j) m fin fout =
              (<[p := None]> ((Some <$> kept) ++ None :: tl)%list,
               if bool_decide (kept !! p = Some ">") then fin else kept !! S p,
               if bool_decide (kept !! p = Some ">") then kept !! S p else fout).
Proof.
  intros Hp. induction m as [|m IH]; intros j Hj Hlen Hno; [lia|].
  cbn [redirect_scan]. rewrite !arg_is_stored by lia.
  destruct (decide (j = p)) as [->|Hne].
  - rewrite Nat2Z.id.
    replace (Z.of_nat p + 1) with (Z.of_nat (S p)) by lia.
    rewrite arg_stored by lia.
    destruct (bool_decide (kept !! p = Some ">")) eqn:E; [done|].
    apply bool_decide_eq_false in E. destruct Hp as [?|Hlt]; [done|].
    by rewrite bool_decide_eq_true_2.
  - destruct (Hno j ltac:(lia)) as [H1 H2].
    rewrite !bool_decide_eq_false_2 by done.
    replace (Z.of_nat j + 1) with (Z.of_nat (S j)) by lia.
    apply IH; [lia|lia|]. intros i Hi. apply Hno. lia.
Qed.

Lemma lookup_before_absent (l r : list string) (x y : string) (i : nat) :
  y ∉ l -> (i < length l)%nat -> (l ++ x :: r)%list !! i <> Some y.
Proof.
  intros Hno Hi. rewrite lookup_app_l by done. intros Hy.
  apply Hno. by eapply list_elem_of_lookup_2.
Qed.

Lemma lookup_absent (l : list string) (y : string) (i : nat) :
  y ∉ l -> l !! i <> Some y.
Proof. intros Hno Hy. apply Hno. by eapply list_elem_of_lookup_2. Qed.

(** [run_line] with the array written out. *)
Lemma run_line_stored (s : shell) :
  length (args s) = Z.to_nat MAX_ARGS ->
  exists tl,
    divide_args (c_string (input s)) (args s) 0 =
    (Z.of_nat (length (kept_arguments (strtok (c_string (input s))))),
     (Some <$> kept_arguments (strtok (c_string (input s)))) ++ None :: tl,
     (divide_args (c_string (input s)) (args s) 0).2)%list.
Proof.
  intros Hlen.
  pose proof (divide_args_stored (c_string (input s)) (args s) 0 Hlen) as H.
  cbv zeta in H.
  destruct (divide_args (c_string (input s)) (args s) 0) as [[n a] bg].
  cbn [fst snd] in *. injection H as -> ->. eauto.
Qed.

(** ** What a line makes the shell do *)

(** Open [run_line] on a shell whose array has its 64 cells, naming the
    tail of the array behind the stored arguments. *)
Ltac open_run_line s Hlen :=
  let behind := fresh "behind" in
  let Hd := fresh "Hd" in
  destruct (run_line_stored s Hlen) as [behind Hd];
  unfold run_line; rewrite Hd; clear Hd.

Lemma not_builtin_stored (kept : list string) (tl : list (option string)) :
  head kept <> Some "exit" -> head kept <> Some "cd" ->
  handle_cd_and_exit ((Some <$> kept) ++ None :: tl) = NotBuiltin.
Proof.
  intros Hexit Hcd. unfold handle_cd_and_exit.
  change 0 with (Z.of_nat 0). rewrite !arg_is_stored by lia.
  rewrite <- !head_lookup. by rewrite !bool_decide_eq_false_2.
Qed.

Lemma first_arg_stored (kept : list string) (tl : list (option string)) :
  arg ((Some <$> kept) ++ None :: tl) 0 = head kept.
Proof.
  change 0 with (Z.of_nat 0). rewrite arg_stored by lia. by rewrite head_lookup.
Qed.

(** X8: the builtins are handled inside the shell and never start a
    process.  A line without arguments (empty, spaces, or [&] alone) does
    nothing; a first argument [exit] ends the shell with status 0 whatever
    follows it; [cd path] asks for a change of directory to [path],
    ignoring further arguments; [cd] alone writes "cd: expected
    argument" to standard error. *)
Theorem builtins_start_no_process (s : shell) :
  length (args s) = Z.to_nat MAX_ARGS ->
  let kept := kept_arguments (strtok (c_string (input s))) in
  (kept = [] ->
   fst (run_line s) = Next /\ trace (snd (run_line s)) = trace s) /\
  (head kept = Some "exit" ->
   fst (run_line s) = Exit 0 /\ trace (snd (run_line s)) = trace s) /\
  (forall path more,
      kept = "cd" :: path :: more ->
      fst (run_line s) = Next /\
      trace (snd (run_line s)) = (trace s ++ [Chdir path])%list) /\
  (kept = ["cd"] ->
   fst (run_line s) = Next /\
   trace (snd (run_line s)) =
     (trace s ++ [Stderr ("cd: expected argument" ++ newline)])%list).
Proof.
  intros Hlen kept. repeat split.
  1,2: open_run_line s Hlen; fold kept; rewrite H; reflexivity.
  1,2: open_run_line s Hlen; fold kept; destruct kept as [|t more];
       [discriminate H|]; simpl in H; injection H as ->; reflexivity.
  1,2: open_run_line s Hlen; fold kept; rewrite H; reflexivity.
  1,2: open_run_line s Hlen; fold kept; rewrite H; reflexivity.
Qed.

Lemma builtins_start_no_process_witness :
  fst (run_line (mkShell initial_history (of_string "exit now")
                         (replicate 64 None) 0 0 [] [])) = Exit 0.
Proof.
  apply (proj1 (proj2 (builtins_start_no_process
           (mkShell initial_history (of_string "exit now")
                    (replicate 64 None) 0 0 [] [])
           eq_refl))).
  reflexivity.
Defined.

(** X9: a line whose first [|] stands after the arguments [l] and before
    the arguments [r] (and whose first argument is no builtin) starts one
    pipeline, [l] feeding [r], and nothing else.  Everything behind that
    first [|] goes to the right-hand command as it is: a further [|], a
    [<] or a [>] there is an ordinary argument, not an operator. *)
Theorem pipeline_splits_at_first_bar (s : shell) (l r : list string) :
  length (args s) = Z.to_nat MAX_ARGS ->
  kept_arguments (strtok (c_string (input s))) = (l ++ "|" :: r)%list ->
  "|" ∉ l ->
  head (l ++ ["|"])%list <> Some "exit" -> head (l ++ ["|"])%list <> Some "cd" ->
  fst (run_line s) = Next /\
  trace (snd (run_line s)) = (trace s ++ [Pipeline l r])%list.
Proof.
  intros Hlen Hkept Hbar Hexit Hcd.
  assert (Hhead : head (l ++ "|" :: r)%list = head (l ++ ["|"])%list)
    by (by destruct l).
  enough (exists s', run_line s = (Next, s') /\
                     trace s' = (trace s ++ [Pipeline l r])%list)
    as (s' & -> & Hs') by done.
  open_run_line s Hlen. rewrite Hkept.
  rewrite first_arg_stored, not_builtin_stored by (by rewrite Hhead).
  destruct (head (l ++ "|" :: r)%list) as [t|] eqn:Ht; [|by destruct l].
  unfold handle_pipe.
  change 0 with (Z.of_nat 0) at 1. rewrite Nat2Z.id.
  rewrite (find_pipe_some _ _ (length l)).
  - rewrite Nat2Z.id, stored_cut, argv_front, argv_behind. eauto.
  - by rewrite list_lookup_middle.
  - rewrite length_app. simpl. lia.
  - lia.
  - intros i Hi. apply lookup_before_absent; [done|lia].
Qed.

Lemma pipeline_splits_at_first_bar_witness :
  trace (snd (run_line (mkShell initial_history (of_string "ls -l | sort > out")
                                (replicate 64 None) 0 0 [] [])))
  = [Pipeline ["ls"; "-l"] ["sort"; ">"; "out"]].
Proof.
  apply (pipeline_splits_at_first_bar
           (mkShell initial_history (of_string "ls -l | sort > out")
                    (replicate 64 None) 0 0 [] [])
           ["ls"; "-l"] ["sort"; ">"; "out"]).
  - reflexivity.
  - reflexivity.
  - apply (bool_decide_unpack _). vm_compute. exact I.
  - discriminate.
  - discriminate.
Defined.

(** X10: without a [|], the first [<] or [>] cuts the command: with the
    arguments [l] before it and [r] behind it, the shell starts [l] alone,
    with the first of [r] as the input file (for [<]) or the output file
    (for [>]) and the other file unset; when nothing follows the operator
    no file is set at all.  Without any of the three operators the command
    is started with all its arguments and no redirection. *)
Theorem redirection_cuts_at_first_operator (s : shell) :
  length (args s) = Z.to_nat MAX_ARGS ->
  let kept := kept_arguments (strtok (c_string (input s))) in
  let flag := (divide_args (c_string (input s)) (args s) 0).2 in
  "|" ∉ kept -> head kept <> Some "exit" -> head kept <> Some "cd" ->
  (forall l r,
      kept = (l ++ "<" :: r)%list -> "<" ∉ l -> ">" ∉ l ->
      fst (run_line s) = Next /\
      trace (snd (run_line s)) = (trace s ++ [Run l flag (head r) None])%list) /\
  (forall l r,
      kept = (l ++ ">" :: r)%list -> "<" ∉ l -> ">" ∉ l ->
      fst (run_line s) = Next /\
      trace (snd (run_line s)) = (trace s ++ [Run l flag None (head r)])%list) /\
  (kept <> [] -> "<" ∉ kept -> ">" ∉ kept ->
   fst (run_line s) = Next /\
   trace (snd (run_line s)) = (trace s ++ [Run kept flag None None])%list).
Proof.
  intros Hlen kept flag Hbar Hexit Hcd.
  assert (Hcut : forall op l r,
             op = "<" \/ op = ">" ->
             kept = (l ++ op :: r)%list -> "<" ∉ l -> ">" ∉ l ->
             fst (run_line s) = Next /\
             trace (snd (run_line s)) =
               (trace s ++ [Run l flag (if bool_decide (op = ">") then None else head r)
                                (if bool_decide (op = ">") then head r else None)])%list).
  { intros op l r Hop Hkept Hlt Hgt.
    enough (exists s', run_line s = (Next, s') /\
              trace s' =
              (trace s ++ [Run l flag (if bool_decide (op = ">") then None else head r)
                               (if bool_decide (op = ">") then head r else None)])%list)
      as (s' & -> & Hs') by done.
    open_run_line s Hlen. fold kept flag.
    rewrite first_arg_stored, not_builtin_stored by done.
    destruct (head kept) as [t|] eqn:Ht; [|by rewrite Hkept in Ht; destruct l].
    unfold handle_pipe. change 0 with (Z.of_nat 0) at 1. rewrite Nat2Z.id.
    rewrite find_pipe_none;
      [|lia|intros i _; by apply lookup_absent].
    unfold handle_input_or_output. change 0 with (Z.of_nat 0) at 1.
    rewrite Nat2Z.id.
    assert (Hp : kept !! length l = Some op)
      by (rewrite Hkept; apply list_lookup_middle; done).
    rewrite (redirect_scan_some kept _ (length l));
      [|destruct Hop as [-> | ->]; auto
       |rewrite Hkept, length_app; simpl; lia|lia
       |intros i Hi; rewrite Hkept;
        split; apply lookup_before_absent; (done || lia)].
    assert (Hnext : kept !! S (length l) = head r).
    { rewrite Hkept, (cons_middle op), app_assoc.
      rewrite lookup_app_r by (rewrite length_app; simpl; lia).
      rewrite length_app. simpl.
      replace (S (length l) - (length l + 1))%nat with 0%nat by lia.
      by rewrite head_lookup. }
    rewrite Hp, Hnext. unfold run_instruction.
    rewrite Hkept, stored_cut, argv_front.
    destruct Hop as [-> | ->]; eauto. }
  split; [|split].
  - intros l r Hkept Hlt Hgt. by apply (Hcut "<" l r); [left|..].
  - intros l r Hkept Hlt Hgt. by apply (Hcut ">" l r); [right|..].
  - intros Hne Hlt Hgt.
    enough (exists s', run_line s = (Next, s') /\
              trace s' = (trace s ++ [Run kept flag None None])%list)
      as (s' & -> & Hs') by done.
    open_run_line s Hlen. fold kept flag.
    rewrite first_arg_stored, not_builtin_stored by done.
    destruct (head kept) as [t|] eqn:Ht; [|by destruct kept].
    unfold handle_pipe. change 0 with (Z.of_nat 0) at 1. rewrite Nat2Z.id.
    rewrite find_pipe_none;
      [|lia|intros i _; by apply lookup_absent].
    unfold handle_input_or_output. change 0 with (Z.of_nat 0) at 1.
    rewrite Nat2Z.id.
    rewrite redirect_scan_none;
      [|lia|intros i _; split; by apply lookup_absent].
    unfold run_instruction. rewrite argv_front. eauto.
Qed.

Lemma redirection_cuts_at_first_operator_witness :
  trace (snd (run_line (mkShell initial_history (of_string "wc -l < notes.txt &")
                                (replicate 64 None) 0 0 [] [])))
  = [Run ["wc"; "-l"] 1 (Some "notes.txt") None].
Proof.
  apply (proj1 (redirection_cuts_at_first_operator
           (mkShell initial_history (of_string "wc -l < notes.txt &")
                    (replicate 64 None) 0 0 [] [])
           eq_refl
           ltac:(apply (bool_decide_unpack _); vm_compute; exact I)
           ltac:(discriminate) ltac:(discriminate))
         ["wc"; "-l"] ["notes.txt"]).
  - reflexivity.
  - apply (bool_decide_unpack _). vm_compute. exact I.
  - apply (bool_decide_unpack _). vm_compute. exact I.
Defined.

(** ** Rounds of the shell loop *)

Lemma ring_ok_same_ring (g g' : history_state) :
  same_ring g g' -> ring_ok g -> ring_ok g'.
Proof.
  intros (Hh & Hc & Hn). unfold ring_ok, counters_ok. by rewrite Hh, Hc, Hn.
Qed.

Lemma entries_same_ring (g g' : history_state) :
  same_ring g g' -> entries g' = entries g.
Proof.
  destruct g, g'. intros (Hh & Hc & Hn). simpl in *. by subst.
Qed.

Lemma slots_fit_add (cmd : string) (g : history_state) :
  fits cmd -> slots_fit g -> slots_fit (add_to_buffer cmd g).
Proof.
  intros Hcmd Hfit. unfold add_to_buffer.
  destruct (strlen cmd =? 0); [done|]. destruct (_ && _); [done|].
  unfold slots_fit. cbn [history]. by apply Forall_insert.
Qed.

Lemma length_divide_loop (segments : list string) :
  forall i a bg, length (divide_loop segments i a bg).1.2 = length a.
Proof.
  induction segments as [|seg rest IH]; intros i a bg; cbn [divide_loop]; [done|].
  repeat case_match; try done; rewrite IH; by rewrite ?length_insert.
Qed.

Lemma length_divide_args (line : string) (a : list (option string)) (bg : Z) :
  length (divide_args line a bg).1.2 = length a.
Proof.
  unfold divide_args. pose proof (length_divide_loop (strtok line) 0 a bg) as H.
  destruct (divide_loop (strtok line) 0 a bg) as [[i a'] bg']. cbn [fst snd] in *.
  by rewrite length_insert.
Qed.

Lemma length_redirect_scan (n : nat) :
  forall a j fin fout, length (redirect_scan a j n fin fout).1.1 = length a.
Proof.
  induction n as [|n IH]; intros a j fin fout; cbn [redirect_scan]; [done|].
  repeat case_match; cbn [fst]; by rewrite ?length_insert.
Qed.

Lemma run_line_args_length (s : shell) :
  length (args (snd (run_line s))) = length (args s).
Proof.
  unfold run_line.
  pose proof (length_divide_args (c_string (input s)) (args s) 0) as Hd.
  destruct (divide_args (c_string (input s)) (args s) 0) as [[n a1] bg].
  cbn [fst snd] in Hd.
  destruct (arg a1 0); [|done].
  destruct (handle_cd_and_exit a1); try done.
  unfold handle_pipe, handle_input_or_output.
  destruct (find_pipe a1 0 (Z.to_nat n)); cbn [snd args].
  - by rewrite length_insert.
  - pose proof (length_redirect_scan (Z.to_nat n) a1 0 None None) as Hr.
    destruct (redirect_scan a1 0 (Z.to_nat n) None None) as [[a2 fin] fout].
    cbn [fst snd args] in *. congruence.
Qed.

(** One round, with the call of [get_input] taken out. *)
Lemma main_iteration_after_input (s : shell) :
  main_iteration s =
  after_input
    (mkShell (hist (fst (get_input (stdin s) (globals s))))
             (buf (fst (get_input (stdin s) (globals s))))
             (args s) (background s) (argc s)
             (snd (get_input (stdin s) (globals s)))
             (trace s ++ Prompt :: out (fst (get_input (stdin s) (globals s))))).
Proof.
  unfold main_iteration.
  pose proof (get_input_count_nonneg (stdin s) (globals s)) as Hc.
  destruct (get_input (stdin s) (globals s)) as [e rest]. cbn [fst snd] in *.
  by assert ((count e <? 0) = false) as -> by lia.
Qed.

(** X11: every line that is neither empty nor [!!] is the newest entry of
    the history once its round is over, whatever the line is: a builtin,
    a command that cannot be started, or nothing but spaces. *)
Theorem line_becomes_newest_entry (s : shell) :
  ring_ok (globals s) ->
  let line := c_string (buf (fst (get_input (stdin s) (globals s)))) in
  line <> "" -> line <> "!!" ->
  last (entries (globals (snd (main_iteration s)))) = Some line.
Proof.
  intros Hok line Hne Hrecall.
  rewrite main_iteration_after_input. unfold after_input. cbn [input globals].
  fold line.
  destruct (Z.eqb_spec (strlen line) 0) as [E|_]; [by apply strlen_0 in E|].
  destruct (String.eqb_spec line "!!") as [|_]; [done|].
  rewrite run_line_globals. cbn [globals].
  set (g := hist (fst (get_input (stdin s) (globals s)))).
  assert (Hg : ring_ok g)
    by (apply (ring_ok_same_ring (globals s)); [apply get_input_same_ring|done]).
  destruct (decide (0 < command_count g /\ slot g (last_index g) = line))
    as [[Hpos Hsame]|Hfresh].
  - rewrite add_to_buffer_same by done. rewrite <- Hsame. by apply newest_is_last.
  - rewrite entries_add_fresh; [by rewrite last_snoc|done|done|tauto].
Qed.

Lemma line_becomes_newest_entry_witness :
  last (entries (globals (snd (main_iteration
          (boot [] (replicate 64 None) (of_string "   " ++ [LF])%list)))))
  = Some "   ".
Proof.
  apply (line_becomes_newest_entry
           (boot [] (replicate 64 None) (of_string "   " ++ [LF])%list)).
  - apply ring_ok_initial.
  - vm_compute. discriminate.
  - vm_compute. discriminate.
Defined.

(** X12: with a command stored, a line that is exactly [!!] writes the
    newest entry and a newline, and then goes on exactly as [run_line] does
    with that entry in the line buffer. *)
Theorem recall_runs_newest_entry (s : shell) :
  ring_ok (globals s) -> slots_fit (globals s) ->
  0 < command_count (globals s) ->
  let e := fst (get_input (stdin s) (globals s)) in
  c_string (buf e) = "!!" ->
  exists newest line_buffer,
    last (entries (globals s)) = Some newest /\
    c_string line_buffer = newest /\
    main_iteration s =
    run_line (mkShell (hist e) line_buffer (args s) (background s) (argc s)
                      (snd (get_input (stdin s) (globals s)))
                      (trace s ++ Prompt :: out e ++ [Stdout (newest ++ newline)])).
Proof.
  intros Hok Hfit Hpos e Hline.
  pose proof (get_input_same_ring (stdin s) (globals s)) as Hsame. fold e in Hsame.
  assert (Hg : ring_ok (hist e)) by (by apply (ring_ok_same_ring (globals s))).
  assert (Hfit' : slots_fit (hist e)) by (by apply (slots_fit_same_ring (globals s))).
  assert (Hpos' : 0 < command_count (hist e))
    by (destruct Hsame as (_ & -> & _); done).
  exists (slot (hist e) (last_index (hist e))),
         (strcpy (buf e) (slot (hist e) (last_index (hist e)))).
  split; [|split].
  - rewrite <- (entries_same_ring _ _ Hsame). by apply newest_is_last.
  - apply c_string_strcpy. by apply fits_slot.
  - rewrite main_iteration_after_input. unfold after_input. cbn [input globals].
    fold e. rewrite Hline.
    change (strlen "!!" =? 0) with false. cbv iota.
    change (String.eqb "!!" "!!") with true. cbv iota.
    destruct (Z.eqb_spec (command_count (hist e)) 0) as [E|_]; [lia|].
    cbn [args background argc stdin trace]. by rewrite <- app_assoc.
Qed.

Lemma recall_runs_newest_entry_witness :
  exists newest line_buffer,
    last (entries (appends ["ls"; "pwd"])) = Some newest /\
    c_string line_buffer = newest /\
    main_iteration (mkShell (appends ["ls"; "pwd"]) [] (replicate 64 None) 0 0
                            (of_string "!!" ++ [LF])%list []) =
    run_line (mkShell
      (hist (fst (get_input (of_string "!!" ++ [LF])%list (appends ["ls"; "pwd"]))))
      line_buffer (replicate 64 None) 0 0
      (snd (get_input (of_string "!!" ++ [LF])%list (appends ["ls"; "pwd"])))
      ([] ++ Prompt ::
         out (fst (get_input (of_string "!!" ++ [LF])%list (appends ["ls"; "pwd"])))
         ++ [Stdout (newest ++ newline)])%list).
Proof.
  apply (recall_runs_newest_entry
           (mkShell (appends ["ls"; "pwd"]) [] (replicate 64 None) 0 0
                    (of_string "!!" ++ [LF])%list [])).
  - apply ring_ok_appends.
  - unfold slots_fit. apply (bool_decide_unpack _). vm_compute. exact I.
  - reflexivity.
  - vm_compute. reflexivity.
Defined.

(** ** What every run keeps *)

Lemma main_iteration_shell_ok (s : shell) :
  shell_ok s -> shell_ok (snd (main_iteration s)).
Proof.
  intros (Hring & Hcur & Hfit & Hargs).
  assert (Hwp : well_placed (globals (snd (main_iteration s)))).
  { apply main_iteration_well_placed. split; [|done]. by destruct Hring as (_ & ? & _). }
  unfold shell_ok. split; [|split; [by destruct Hwp|]].
  all: rewrite main_iteration_after_input; unfold after_input; cbn [input globals].
  all: pose proof (get_input_same_ring (stdin s) (globals s)) as Hsame.
  all: pose proof (read_loop_buffer_ok_get_input (stdin s) (globals s) Hfit) as Hbuf.
  all: set (e := fst (get_input (stdin s) (globals s))) in *.
  all: assert (Hg : ring_ok (hist e)) by (by apply (ring_ok_same_ring (globals s))).
  all: assert (Hf : slots_fit (hist e)) by (by apply (slots_fit_same_ring (globals s))).
  - repeat case_match; try done; rewrite run_line_globals; cbn [globals]; try done.
    by apply ring_ok_add.
  - split.
    + repeat case_match; try done; rewrite run_line_globals; cbn [globals]; try done.
      apply slots_fit_add; [|done]. by apply buffer_ok_line_fits.
    + repeat case_match; try done; rewrite run_line_args_length; done.
Qed.

Lemma shell_ok_boot (input0 : list ascii) (args0 : list (option string))
    (bytes : list ascii) :
  length args0 = Z.to_nat MAX_ARGS -> shell_ok (boot input0 args0 bytes).
Proof.
  intros Hlen. unfold shell_ok, boot. cbn [globals args].
  split; [apply ring_ok_initial|]. split; [by left|]. split; [|done].
  unfold slots_fit. simpl. repeat constructor; try apply fits_empty.
Qed.

(** X13: whatever bytes the shell is fed and however long it runs, its
    history stays a well-formed ring (five slots, counters in bounds), the
    browse cursor is at rest or on a slot of a non-empty history, every
    stored command fits its [MAX_LENGTH] bytes with the NUL, and the
    argument array keeps its [MAX_ARGS] cells. *)
Theorem shell_keeps_its_shape (fuel : nat) (input0 : list ascii)
    (args0 : list (option string)) (bytes : list ascii) :
  length args0 = Z.to_nat MAX_ARGS ->
  shell_ok (state_of (main_loop fuel (boot input0 args0 bytes))).
Proof.
  intros Hlen. generalize (shell_ok_boot input0 args0 bytes Hlen).
  generalize (boot input0 args0 bytes).
  induction fuel as [|fuel IH]; intros s Hs; cbn [main_loop state_of]; [done|].
  pose proof (main_iteration_shell_ok s Hs) as Hnext.
  destruct (main_iteration s) as [[| |status] s']; cbn [snd state_of] in *;
    [by apply IH|done|done].
Qed.

Lemma shell_keeps_its_shape_witness :
  shell_ok (state_of (main_loop 3
    (boot [] (replicate 64 None)
          (of_string "ls" ++ [LF] ++ of_string "cd /tmp" ++ [LF] ++ of_string "!!" ++ [LF])%list))).
Proof.
  apply (shell_keeps_its_shape 3 [] (replicate 64 None)). reflexivity.
Defined.

Lemma run_line_exit_status (s : shell) (status : Z) :
  fst (run_line s) = Exit status -> status = 0.
Proof.
  unfold run_line. repeat case_match; cbn [fst]; intros Hexit;
    first [discriminate Hexit | by injection Hexit].
Qed.

Lemma main_iteration_exit_status (s : shell) (status : Z) :
  fst (main_iteration s) = Exit status -> status = 0.
Proof.
  rewrite main_iteration_after_input. unfold after_input.
  repeat case_match; cbn [fst]; try discriminate; apply run_line_exit_status.
Qed.

(** X14: typing a line whose first argument is [exit] and pressing Enter
    ends the shell with status 0, in whatever state it is and whatever is
    still waiting on standard input; no process is started on the way.
    And a run of [main] never ends with any other status. *)
Theorem typing_exit_ends_the_shell :
  (forall (s : shell) (keys rest : list ascii) (enter : ascii) (fuel : nat),
      length (args s) = Z.to_nat MAX_ARGS ->
      stdin s = (keys ++ enter :: rest)%list ->
      Forall plain_key keys -> enter = LF \/ enter = CR ->
      head (kept_arguments (strtok (c_string (fold_left type_key keys []))))
        = Some "exit" ->
      exists s' evs,
        main_loop (S fuel) s = Exited 0 s' /\ stdin s' = rest /\
        trace s' = (trace s ++ evs)%list /\ quiet evs) /\
  (forall fuel s status s', main_loop fuel s = Exited status s' -> status = 0).
Proof.
  split.
  - intros s keys rest enter fuel Hlen Hin Hkeys Henter Hexit.
    destruct (get_input_typed keys rest enter (globals s) Hkeys Henter)
      as (Hline & Hrest).
    set (line := c_string (fold_left type_key keys [])) in *.
    cbn [main_loop]. rewrite main_iteration_after_input, Hin.
    set (e := fst (get_input (keys ++ enter :: rest) (globals s))) in *.
    unfold after_input. cbn [input globals]. rewrite Hline.
    destruct (Z.eqb_spec (strlen line) 0) as [E|_].
    { apply strlen_0 in E. rewrite E in Hexit. discriminate Hexit. }
    destruct (String.eqb_spec line "!!") as [E|_].
    { rewrite E in Hexit. discriminate Hexit. }
    set (s1 := mkShell _ _ _ _ _ _ _).
    assert (Hlen1 : length (args s1) = Z.to_nat MAX_ARGS) by done.
    destruct (run_line_stored s1 Hlen1) as [behind Hd].
    unfold run_line. rewrite Hd. clear Hd.
    change (c_string (input s1)) with (c_string (buf e)). rewrite Hline.
    fold line. destruct (kept_arguments (strtok line)) as [|t more];
      [discriminate Hexit|].
    simpl in Hexit. injection Hexit as ->.
    eexists _, (Prompt :: out e). split; [reflexivity|].
    cbn [stdin trace s1]. split; [done|]. split; [done|].
    constructor; [done|]. apply read_loop_quiet. constructor.
  - induction fuel as [|fuel IH]; intros s status s' H; cbn [main_loop] in H;
      [discriminate H|].
    pose proof (main_iteration_exit_status s) as Hst.
    destruct (main_iteration s) as [[| |st] s1]; [by eapply IH|discriminate H|].
    injection H as <- _. by apply Hst.
Qed.

Lemma typing_exit_ends_the_shell_witness :
  exists s' evs,
    main_loop 1 (boot [] (replicate 64 None) (of_string "exit" ++ LF :: of_string "ls")%list)
    = Exited 0 s' /\ stdin s' = of_string "ls" /\
    trace s' = ([] ++ evs)%list /\ quiet evs.
Proof.
  apply (proj1 typing_exit_ends_the_shell
           (boot [] (replicate 64 None) (of_string "exit" ++ LF :: of_string "ls")%list)
           (of_string "exit") (of_string "ls") LF 0%nat).
  - reflexivity.
  - reflexivity.
  - repeat constructor; discriminate.
  - by left.
  - reflexivity.
Defined.


(** X16: [handle_input_or_output] never sets both files: started with
    neither, it returns with the input file or the output file still
    unset, and the array keeps its length, whatever the array holds and
    whatever count it is given. *)
Theorem at_most_one_redirection (a : list (option string)) (n : Z) :
  let r := handle_input_or_output a n None None in
  (r.1.2 = None \/ r.2 = None) /\ length r.1.1 = length a.
Proof.
  cbv zeta. unfold handle_input_or_output.
  split; [|apply length_redirect_scan].
  generalize 0. induction (Z.to_nat n) as [|m IH]; intros j;
    cbn [redirect_scan]; [by left|].
  repeat case_match; cbn [fst snd]; auto.
Qed.
